(** * Translonpredictor.fileprocessor: coordinate projection, offset
    inference and A-site aggregation

    A shallow embedding of [src/Translonpredictor/fileprocessor.py].  The
    Python code works on polars data frames; a frame is modelled as the
    list of its rows, each row a record whose fields carry the column
    names of the source.  Integer columns are polars [Int64] columns: their
    values are integers of [[-2^63, 2^63)], kept in [Z], and the arithmetic
    of column expressions wraps around ([wrap64]); what Python computes on
    its own integers and floats does not wrap.  [chr] and [tran_id] are
    strings.  Exceptions are values of [error] threaded through a small
    error monad. *)

From Stdlib Require Import ZArith QArith Qabs Qround Ascii.
From stdpp Require Import base decidable option list list_numbers sorting
  strings pretty gmap fin_maps.

Local Open Scope Z_scope.

(** ** Exceptions *)

Inductive error : Set :=
| NoDataError   (* pl.from_dicts on an empty list *)
| KeyError      (* a dict subscript on a missing key *)
| ValueError    (* min()/max() of an empty column *)
| ComputeError. (* apply without return_dtype on a frame with no row *)

Inductive result (A : Type) : Type :=
| Ok (a : A)
| Err (e : error).
Arguments Ok {A} a.
Arguments Err {A} e.

#[global] Instance result_ret : MRet result := λ A, Ok.
#[global] Instance result_bind : MBind result := λ A B k m,
  match m with
  | Ok a => k a
  | Err e => Err e
  end.

(** ** Frame primitives *)

(** The value an [Int64] column keeps of the exact result [z] of an
    addition or a subtraction: two's complement on 64 bits. *)
Definition wrap64 (z : Z) : Z :=
  (z + 9223372036854775808) mod 18446744073709551616 - 9223372036854775808.

(** The values of an [Int64] column. *)
Definition int64 (z : Z) : Prop :=
  -9223372036854775808 ≤ z < 9223372036854775808.

Arguments wrap64 : simpl never.

(** [Series.unique()] on a column of strings, and the keys of
    [group_by]: the distinct values.  polars promises no order; the model
    lists them by first occurrence. *)
Fixpoint unique `{EqDecision A} (l : list A) : list A :=
  match l with
  | [] => []
  | x :: l' => x :: filter (λ y, y ≠ x) (unique l')
  end.

(** [Series.unique()] on an integer column: polars sorts such a column
    before it drops the repeated values, so the distinct values come in
    ascending order. *)
Definition unique_int (l : list Z) : list Z := merge_sort Z.le (unique l).

(** Python's [range(lo, hi)]. *)
Definition range (lo hi : Z) : list Z := seqZ lo (hi - lo).

(** Python's [range(lo, hi, step)] for a positive step. *)
Definition range_step (lo hi step : Z) : list Z :=
  (λ k, lo + k * step) <$> seqZ 0 ((hi - lo + step - 1) `div` step).

(** [DataFrame.explode] over list-valued cells: every element becomes a
    row, and an empty list becomes one row of nulls ([None]). *)
Definition explode {A} (cells : list (list A)) : list (option A) :=
  cells ≫= λ c, match c with [] => [None] | _ => Some <$> c end.

(** [pl.from_dicts]: no schema can be inferred from an empty list. *)
Definition from_dicts {A} (data : list A) : result (list A) :=
  match data with
  | [] => Err NoDataError
  | _ => Ok data
  end.

Definition sum_list (l : list Z) : Z := foldr Z.add 0 l.

(** ** Offset inference: [change_point_analysis] *)

(** A row of [offset_df], the per-length histogram of CDS-relative start
    positions. *)
Module Hist.
Record row : Set := mk { bamcds_start : Z; length : Z; count : Z }.
End Hist.

(** [df.filter(bamcds_start == j)["count"][0]] when the filter is not empty,
    [0] otherwise. *)
Definition count_at (offset_df_len : list Hist.row) (j : Z) : Z :=
  match filter (λ r, Hist.bamcds_start r = j) offset_df_len with
  | r :: _ => Hist.count r
  | [] => 0
  end.

(** The list built by one of the two [for j in range(lo, hi)] loops. *)
Definition counts_in (offset_df_len : list Hist.row) (lo hi : Z) : list Z :=
  count_at offset_df_len <$> range lo hi.

(** The variables [i], [left], [right] as the loop
    [for i in range(-30, 11)] leaves them: each iteration overwrites all
    three and nothing else is done in the loop body. *)
Definition scan (offset_df_len : list Hist.row) : Z * list Z * list Z :=
  foldl (λ _ i, (i, counts_in offset_df_len (i - 3) (i + 1),
                    counts_in offset_df_len (i + 1) (i + 5)))
        (0, [], []) (range (-30) 11).

(** The quotient [sum(xs) / 4] in exact arithmetic, as the specification
    reads a mean. *)
Definition mean4 (xs : list Z) : Q := (inject_Z (sum_list xs) / 4)%Q.

(** Python's floats are IEEE 754 doubles.  [round53 n] is the double
    nearest to the integer [n], ties going to the even significand of 53
    bits; it is an integer itself, and [n] when [|n| < 2^53]. *)
Definition round53 (n : Z) : Z :=
  let a := Z.abs n in
  let e := Z.log2 a - 52 in
  if e <=? 0 then n
  else
    let q := a `div` 2 ^ e in
    let r := a `mod` 2 ^ e in
    let half := 2 ^ (e - 1) in
    let m := if (half <? r) || ((r =? half) && Z.odd q) then q + 1 else q in
    Z.sgn n * (m * 2 ^ e).

Arguments round53 : simpl never.

(** The double nearest to [q], for [q] a multiple of 1/4, as the means and
    their differences are: a division by 4 only moves the exponent. *)
Definition round_quarter (q : Q) : Q :=
  (inject_Z (round53 (Qfloor (q * 4))) / 4)%Q.

(** [sum(xs) / 4]: [sum] adds Python integers, which have no bound, and
    the true division of two integers gives the double nearest to the
    quotient. *)
Definition float_mean4 (xs : list Z) : Q :=
  (inject_Z (round53 (sum_list xs)) / 4)%Q.

(** [x - y] on two floats. *)
Definition float_sub (x y : Q) : Q := round_quarter (x - y).

(** [a > b] on the shifts. *)
Definition Qgtb (a b : Q) : bool := negb (Qle_bool a b).

(** [sort("bamcds_start")]: ascending, rows of the same position keeping
    the order they had. *)
Fixpoint insert_by_bamcds_start (r : Hist.row) (l : list Hist.row)
  : list Hist.row :=
  match l with
  | [] => [r]
  | r' :: l' =>
      if decide (Hist.bamcds_start r ≤ Hist.bamcds_start r') then r :: l
      else r' :: insert_by_bamcds_start r l'
  end.

Definition sort_by_bamcds_start (l : list Hist.row) : list Hist.row :=
  foldr insert_by_bamcds_start [] l.

(** The three variables that live across the iterations of the loop over
    the lengths: they are initialised once, before that loop. *)
Record cp_state : Type := mk_cp {
  max_shift : Q;
  max_shift_position : option Z;
  offset_dict : gmap Z Z
}.

Definition cp_init : cp_state :=
  {| max_shift := 0%Q; max_shift_position := None; offset_dict := ∅ |}.

(** One iteration of [for length in offset_df["length"].unique()]. *)
Definition cp_step (offset_df : list Hist.row) (st : cp_state) (length : Z)
  : cp_state :=
  let offset_df_len :=
    sort_by_bamcds_start
      (filter (λ r, Hist.length r = length) offset_df) in
  let '(i, left_, right_) := scan offset_df_len in
  let mean_left := float_mean4 left_ in
  let mean_right := float_mean4 right_ in
  let shift := Qabs (float_sub mean_right mean_left) in
  let '(max_shift', max_shift_position') :=
    if Qgtb shift (max_shift st) then (shift, Some i)
    else (max_shift st, max_shift_position st) in
  let offset :=
    match max_shift_position' with
    | None => 15
    | Some p => p
    end in
  {| max_shift := max_shift';
     max_shift_position := max_shift_position';
     offset_dict := <[length := offset]> (offset_dict st) |}.

(** The function with the order in which the lengths are visited made
    explicit. *)
Definition change_point_analysis_in (order : list Z)
    (offset_df : list Hist.row) : gmap Z Z :=
  offset_dict (foldl (cp_step offset_df) cp_init order).

Definition change_point_analysis (offset_df : list Hist.row) : gmap Z Z :=
  change_point_analysis_in (unique_int (Hist.length <$> offset_df)) offset_df.

(** *** The rule of the specification, for comparison

    Section 4.3 of the specification, word for word: for each candidate
    [i] of the scan range the shift between the mean of [H] over
    [[i+1, i+4]] and over [[i-3, i]]; the first [i] of maximal shift; 15
    when no shift is positive. *)
Definition spec_shift (H : Z → Z) (i : Z) : Q :=
  Qabs (mean4 (H <$> range (i + 1) (i + 5)) - mean4 (H <$> range (i - 3) (i + 1))).

Definition spec_offset (H : Z → Z) : Z :=
  let best :=
    foldl (λ (acc : Q * option Z) i,
             if Qgtb (spec_shift H i) acc.1 then (spec_shift H i, Some i)
             else acc)
          (0%Q, None) (range (-30) 11) in
  default 15 best.2.

(** The histogram of one length, as the specification reads it. *)
Definition histogram (offset_df : list Hist.row) (length : Z) : Z → Z :=
  λ j, sum_list (Hist.count <$>
    filter (λ r, Hist.length r = length ∧ Hist.bamcds_start r = j) offset_df).

(** ** The tables of the pipeline *)

(** A row of the read table [bam_df]. *)
Module Bam.
Record row : Set :=
  mk { count : Z; chr : string; start : Z; stop : Z; length : Z }.
Definition columns : list string :=
  ["count"; "chr"; "start"; "stop"; "length"].
End Bam.

(** A row of the exon table once its list columns [start], [stop],
    [tran_start], [tran_stop] are exploded: one row per exon segment.  The
    table comes from [getexons_and_cds] of the module [findexonscds]; the
    model takes it in this exploded form, [explode] and the row filters
    before it commuting. *)
Module Exon.
Record row : Set :=
  mk { chr : string; start : Z; stop : Z;
       tran_id : string; tran_start : Z; tran_stop : Z }.
Definition columns : list string :=
  ["chr"; "start"; "stop"; "tran_id"; "tran_start"; "tran_stop"].
End Exon.

(** A row of [bam_df.join(exon_df, on="chr")]: the columns of the left
    frame, then those of the right one without the key, a name already
    taken getting the suffix [_right]. *)
Module Joined.
Record row : Set :=
  mk { count : Z; chr : string; start : Z; stop : Z; length : Z;
       start_right : Z; stop_right : Z;
       tran_id : string; tran_start : Z; tran_stop : Z }.
End Joined.

(** A read lifted to transcript coordinates by [get_bam_tran]. *)
Module Tran.
Record row : Set :=
  mk { count : Z; chr : string; start : Z; stop : Z; length : Z;
       tran_id : string; tran_start_bam : Z; tran_stop_bam : Z }.
Definition columns : list string :=
  ["count"; "chr"; "start"; "stop"; "length";
   "tran_id"; "tran_start_bam"; "tran_stop_bam"].
End Tran.

(** A row of the CDS table. *)
Module Cds.
Record row : Set := mk { tran_id : string; tran_start : Z }.
End Cds.

(** A row returned by [bamrelativetocds]. *)
Module BamCds.
Record row : Set :=
  mk { count : Z; chr : string; start : Z; stop : Z; length : Z;
       tran_id : string; bamcds_start : Z }.
Definition columns : list string :=
  ["count"; "chr"; "start"; "stop"; "length"; "tran_id"; "bamcds_start"].
End BamCds.

(** A row of the frame returned by [asitecalc]; [A_site] is the column
    ["A-site"]. *)
Module Bed.
Record row : Set := mk { chr : string; A_site : Z; stop : Z; count : Z }.
End Bed.

(** Both the read table and the exon table have the columns [start] and
    [stop] that the window filter reads. *)
Class Interval (A : Type) : Type := { start : A → Z; stop : A → Z }.

#[global] Instance bam_interval : Interval Bam.row :=
  {| start := Bam.start; stop := Bam.stop |}.
#[global] Instance exon_interval : Interval Exon.row :=
  {| start := Exon.start; stop := Exon.stop |}.

(** ** Transcript projection: [get_bam_tran] and [bamtranscript] *)

Definition joined (r : Bam.row) (e : Exon.row) : Joined.row :=
  Joined.mk (Bam.count r) (Bam.chr r) (Bam.start r) (Bam.stop r)
    (Bam.length r) (Exon.start e) (Exon.stop e)
    (Exon.tran_id e) (Exon.tran_start e) (Exon.tran_stop e).

(** [bam_df.join(exon_df, on="chr")], an inner join.  polars promises no
    order of its rows; its hash join goes through the rows of the longer
    frame (the right one when both are as long) and lists, for each, the
    matching rows of the other. *)
Definition join (bam_df : list Bam.row) (exon_df : list Exon.row)
  : list Joined.row :=
  if decide (List.length exon_df < List.length bam_df)%nat
  then r ← bam_df;
       e ← filter (λ e, Exon.chr e = Bam.chr r) exon_df;
       [joined r e]
  else e ← exon_df;
       r ← filter (λ r, Bam.chr r = Exon.chr e) bam_df;
       [joined r e].

(** The two [with_columns] and the final [select] of [get_bam_tran]. *)
Definition project (j : Joined.row) : Tran.row :=
  let tran_start_bam :=
    wrap64 (Joined.tran_start j
            + wrap64 (Joined.start j - Joined.start_right j)) in
  let tran_stop_bam :=
    wrap64 (Joined.tran_stop j
            - wrap64 (Joined.stop_right j - Joined.stop j)) in
  Tran.mk (Joined.count j) (Joined.chr j) (Joined.start j) (Joined.stop j)
    (Joined.length j) (Joined.tran_id j) tran_start_bam tran_stop_bam.

Definition get_bam_tran (bam_df : list Bam.row) (exon_df : list Exon.row)
  : list Tran.row :=
  let df_joined := join bam_df exon_df in
  let df_filtered :=
    filter (λ j, Joined.start j >= Joined.start_right j
                 ∧ Joined.stop j ≤ Joined.stop_right j) df_joined in
  project <$> df_filtered.

(** [(pl.col("start") >= i) & (pl.col("stop") <= rng)]. *)
Definition in_window `{Interval A} (i rng : Z) (r : A) : Prop :=
  start r >= i ∧ stop r ≤ rng.

#[global] Instance in_window_dec `{Interval A} i rng (r : A) :
  Decision (in_window i rng r).
Proof. unfold in_window. apply _. Defined.

(** Python's [min] and [max] over a column. *)
Definition min_of (l : list Z) : result Z :=
  match l with
  | [] => Err ValueError
  | x :: l' => Ok (foldl Z.min x l')
  end.

Definition max_of (l : list Z) : result Z :=
  match l with
  | [] => Err ValueError
  | x :: l' => Ok (foldl Z.max x l')
  end.

(** The body of [for i in range(min_val, max_val, 225000)]: what the
    window starting at [i] appends to [results]. *)
Definition window_result (bam_with_chr : list Bam.row)
    (exon_with_chr : list Exon.row) (i : Z) : list (list Tran.row) :=
  let rng := i + 225000 in
  let exon_chr := filter (in_window i rng) exon_with_chr in
  let bam_chr := filter (in_window i rng) bam_with_chr in
  if decide (exon_chr ≠ [] ∧ bam_chr ≠ [])
  then [get_bam_tran bam_chr exon_chr]
  else [].

(** The body of [for chr in bam_df["chr"].unique()]. *)
Definition chr_results (bam_df : list Bam.row)
    (exon_flattened : list Exon.row) (chr : string)
  : result (list (list Tran.row)) :=
  let bam_with_chr := filter (λ r, Bam.chr r = chr) bam_df in
  let exon_with_chr := filter (λ e, Exon.chr e = chr) exon_flattened in
  min_val ← min_of (Exon.start <$> exon_with_chr);
  max_val ← max_of (Exon.stop <$> exon_with_chr);
  Ok (range_step min_val max_val 225000
        ≫= window_result bam_with_chr exon_with_chr).

(** The two chromosome restrictions at the head of [bamtranscript]. *)
Definition shared_bam (bam_df : list Bam.row) (exon_df : list Exon.row)
  : list Bam.row :=
  let uniquechr_exon := unique (Exon.chr <$> exon_df) in
  filter (λ r, Bam.chr r ∈ uniquechr_exon) bam_df.

Definition shared_exon (bam_df : list Bam.row) (exon_df : list Exon.row)
  : list Exon.row :=
  let uniquechr_bam := unique (Bam.chr <$> bam_df) in
  filter (λ e, Exon.chr e ∈ uniquechr_bam) exon_df.

(** The list [results] when the two loops are done. *)
Definition bamtranscript_results (bam_df : list Bam.row)
    (exon_df : list Exon.row) : result (list (list Tran.row)) :=
  let bam_df' := shared_bam bam_df exon_df in
  let exon_flattened := shared_exon bam_df exon_df in
  per_chr ← mapM (chr_results bam_df' exon_flattened)
                 (unique (Bam.chr <$> bam_df'));
  Ok (mjoin per_chr).

(** A row of the result is [None] when it is the row of nulls that
    [explode] makes of a window whose join retained nothing. *)
Definition bamtranscript (bam_df : list Bam.row) (exon_df : list Exon.row)
  : result (list (option Tran.row)) :=
  results ← bamtranscript_results bam_df exon_df;
  bam_df ← from_dicts results;
  Ok (explode bam_df).

(** ** CDS-relative coordinates: [bamrelativetocds] *)

(** The subtraction is done by Python, on integers without a bound. *)
Definition calculate_differences (start start_dict : Z) : Z :=
  let start_diff := start - start_dict in
  start_diff.

(** [dict(zip(keys, values))]: a later pair overwrites an earlier one. *)
Definition dict_zip `{Countable K} {V} (keys : list K) (values : list V)
  : gmap K V :=
  foldl (λ d kv, <[kv.1 := kv.2]> d) ∅ (zip keys values).

(** [d[k]]. *)
Definition subscript `{Countable K} {V} (d : gmap K V) (k : K) : result V :=
  match d !! k with
  | Some v => Ok v
  | None => Err KeyError
  end.

(** [with_columns(shared=col.is_in(values)).filter(shared == True)] on the
    rows of [bamdf]: the [tran_id] of a row of nulls is null, which is in
    no list of strings. *)
Definition bam_shared (bamdf : list (option Tran.row))
    (uniquetran_cds : list string) : list Tran.row :=
  filter (λ r, Tran.tran_id r ∈ uniquetran_cds) (omap id bamdf).

Definition cds_shared (cdsdf : list Cds.row)
    (uniquetran_bam : list (option string)) : list Cds.row :=
  filter (λ c, Some (Cds.tran_id c) ∈ uniquetran_bam) cdsdf.

Definition start_dict_of (cds_df : list Cds.row) : gmap string Z :=
  dict_zip (Cds.tran_id <$> cds_df) (Cds.tran_start <$> cds_df).

(** The lambda applied to each row, with the final [select]. *)
Definition relative_row (start_dict : gmap string Z) (x : Tran.row)
  : result BamCds.row :=
  d ← subscript start_dict (Tran.tran_id x);
  let bamcds_start := calculate_differences (Tran.tran_start_bam x) d in
  Ok (BamCds.mk (Tran.count x) (Tran.chr x) (Tran.start x) (Tran.stop x)
        (Tran.length x) (Tran.tran_id x) bamcds_start).

(** [apply] is given no [return_dtype]: it reads the type of the new
    column off the first value, and raises when the frame has no row. *)
Definition bamrelativetocds (bamdf : list (option Tran.row))
    (cdsdf : list Cds.row) : result (list BamCds.row) :=
  let uniquetran_bam :=
    unique ((λ r : option Tran.row, Tran.tran_id <$> r) <$> bamdf) in
  let uniquetran_cds := unique (Cds.tran_id <$> cdsdf) in
  let bam_df := bam_shared bamdf uniquetran_cds in
  let cds_df := cds_shared cdsdf uniquetran_bam in
  let start_dict := start_dict_of cds_df in
  match bam_df with
  | [] => Err ComputeError
  | _ => mapM (relative_row start_dict) bam_df
  end.

(** ** A-site aggregation: [asitecalc] *)

(** [group_by(keys).agg(pl.col("count").sum())] on rows reduced to their
    key and count.  polars promises no order of the groups; the model
    keeps them in the order of their first row.  The sum of a group is an
    [Int64] accumulator that starts at 0. *)
Fixpoint add_count `{EqDecision K} (k : K) (n : Z) (groups : list (K * Z))
  : list (K * Z) :=
  match groups with
  | [] => [(k, wrap64 (0 + n))]
  | (k', n') :: groups' =>
      if decide (k' = k) then (k', wrap64 (n' + n)) :: groups'
      else (k', n') :: add_count k n groups'
  end.

Definition group_by_sum `{EqDecision K} (rows : list (K * Z))
  : list (K * Z) :=
  foldl (λ groups kn, add_count kn.1 kn.2 groups) [] rows.

(** The order of [sort(["chr", "A-site"])]: by chromosome, compared as a
    string, then by position. *)
Definition bed_le (r1 r2 : Bed.row) : Prop :=
  String.le (Bed.chr r1) (Bed.chr r2)
  ∧ (Bed.chr r1 = Bed.chr r2 → Bed.A_site r1 ≤ Bed.A_site r2).

#[global] Instance bed_le_dec : RelDecision bed_le.
Proof. intros r1 r2. unfold bed_le. apply _. Defined.

(** The dict [x] built for one group of [df.group_by("length")]: the
    columns [count], [chr] and ["A-site"] of the rows of that length. *)
Definition asite_group (df : list BamCds.row) (offsets : gmap Z Z)
    (value : Z) : result (list (string * Z * Z)) :=
  offset ← subscript offsets value;
  Ok ((λ r, (BamCds.chr r, wrap64 (BamCds.start r + offset), BamCds.count r))
        <$> filter (λ r, BamCds.length r = value) df).

(** Every group of [group_by] has a row, so no cell of [df_asite] is empty
    and [explode] is the concatenation of the cells ([explode_concat]). *)
Definition asitecalc (df : list BamCds.row) (offsets : gmap Z Z)
  : result (list Bed.row) :=
  y ← mapM (asite_group df offsets) (unique (BamCds.length <$> df));
  df_asite ← from_dicts y;
  let df_asite := mjoin df_asite in
  let df_asite :=
    group_by_sum ((λ x, ((x.1.1, x.1.2), x.2)) <$> df_asite) in
  let df_asite :=
    (λ g, Bed.mk g.1.1 g.1.2 (wrap64 (g.1.2 + 1)) g.2) <$> df_asite in
  let df_bed := merge_sort bed_le df_asite in
  Ok df_bed.

(** The position a row is moved to, when its length has an offset. *)
Definition a_site_of (offsets : gmap Z Z) (r : BamCds.row)
  : option (string * Z) :=
  offset ← offsets !! BamCds.length r;
  Some (BamCds.chr r, wrap64 (BamCds.start r + offset)).

(** ** Column names

    The column operations of the source, on the list of the names of a
    frame. *)

(** [select(pl.all().exclude(names))]. *)
Definition exclude (names columns : list string) : list string :=
  filter (λ c, c ∉ names) columns.

(** [with_columns(expr.alias(name))]: a new column goes last, an existing
    one is replaced in place. *)
Definition with_column (name : string) (columns : list string)
  : list string :=
  if decide (name ∈ columns) then columns else columns ++ [name].

(** [left.join(right, on=key)]. *)
Definition join_columns (key : string) (left_ right_ : list string)
  : list string :=
  left_ ++ ((λ c, if decide (c ∈ left_) then c +:+ "_right" else c)
              <$> filter (λ c, c ≠ key) right_).

Definition get_bam_tran_columns (bam_df exon_df : list string)
  : list string :=
  exclude ["stop_right"; "start_right"; "tran_start"; "tran_stop"]
    (with_column "tran_stop_bam"
       (with_column "tran_start_bam" (join_columns "chr" bam_df exon_df))).

Definition bamrelativetocds_columns (bamdf : list string) : list string :=
  let bam_df := exclude ["shared"] (with_column "shared" bamdf) in
  let bam_df2 := with_column "bamcds_start" bam_df in
  exclude ["tran_start_bam"; "tran_stop_bam"] bam_df2.

Definition asite_group_columns (df : list string) : list string :=
  exclude ["start"; "stop"; "length"; "tran_id"; "bamcds_start"]
    (with_column "A-site" df).

(** ** Definitions used by the statements *)

(** The invariant of the loop over the lengths: the recorded position is
    unset or 10, and every offset written so far is 10 or 15. *)
Definition cp_inv (st : cp_state) : Prop :=
  (max_shift_position st = None ∨ max_shift_position st = Some 10)
  ∧ map_Forall (λ _ o, o = 10 ∨ o = 15) (offset_dict st).

(** A profile with its counts at positions 0 to 20, none below 0. *)
Definition scenario_B : list Hist.row :=
  (λ j, Hist.mk j 30 100) <$> range 0 21.

(** The same step, with counts at positions 0 to 12 only. *)
Definition scenario_B_short : list Hist.row :=
  (λ j, Hist.mk j 30 100) <$> range 0 13.

(** Length 28 has reads at position 11 only; length 30 has all its reads
    at position 100, outside every window of the scan. *)
Definition flat_30 : list Hist.row := [Hist.mk 100 30 7].
Definition peak_28_flat_30 : list Hist.row :=
  [Hist.mk 11 28 4; Hist.mk 100 30 7].

(** The projected row of a read and an exon, in the terms of the two
    input tables: the sums and differences are those of [project]. *)
Definition projected (r : Bam.row) (e : Exon.row) : Tran.row :=
  Tran.mk (Bam.count r) (Bam.chr r) (Bam.start r) (Bam.stop r)
    (Bam.length r) (Exon.tran_id e)
    (wrap64 (Exon.tran_start e + wrap64 (Bam.start r - Exon.start e)))
    (wrap64 (Exon.tran_stop e - wrap64 (Exon.stop e - Bam.stop r))).

(** A read that starts inside the window beginning at 0 and ends 20
    positions past its end, and one with the same start that ends inside. *)
Definition boundary_read : Bam.row := Bam.mk 1 "chr1" 224990 225020 30.
Definition inner_read : Bam.row := Bam.mk 1 "chr1" 224990 225000 10.

Definition scenario_A_read : Bam.row := Bam.mk 1 "chr1" 100 130 30.
Definition scenario_A_exon : Exon.row :=
  Exon.mk "chr1" 90 200 "tranA" 0 110.
Definition scenario_A_cds : Cds.row := Cds.mk "tranA" 5.

(** The starts [i] of the windows of a chromosome. *)
Definition window_starts (exon_with_chr : list Exon.row) : list Z :=
  match min_of (Exon.start <$> exon_with_chr),
        max_of (Exon.stop <$> exon_with_chr) with
  | Ok min_val, Ok max_val => range_step min_val max_val 225000
  | _, _ => []
  end.

(** The cells (chromosome, window) that the two loops of [bamtranscript]
    visit, and the reads and exons of a cell. *)
Definition cells (bam_df : list Bam.row) (exon_df : list Exon.row)
  : list (string * Z) :=
  chr ← unique (Bam.chr <$> shared_bam bam_df exon_df);
  i ← window_starts
         (filter (λ e, Exon.chr e = chr) (shared_exon bam_df exon_df));
  [(chr, i)].

Definition cell_reads (bam_df : list Bam.row) (exon_df : list Exon.row)
    (cell : string * Z) : list Bam.row :=
  filter (in_window cell.2 (cell.2 + 225000))
    (filter (λ r, Bam.chr r = cell.1) (shared_bam bam_df exon_df)).

Definition cell_exons (bam_df : list Bam.row) (exon_df : list Exon.row)
    (cell : string * Z) : list Exon.row :=
  filter (in_window cell.2 (cell.2 + 225000))
    (filter (λ e, Exon.chr e = cell.1) (shared_exon bam_df exon_df)).

(** What the windows of one chromosome append to [results]. *)
Definition chr_windows (bam_df : list Bam.row)
    (exon_flattened : list Exon.row) (chr : string)
  : list (list Tran.row) :=
  window_starts (filter (λ e, Exon.chr e = chr) exon_flattened)
    ≫= window_result (filter (λ r, Bam.chr r = chr) bam_df)
                     (filter (λ e, Exon.chr e = chr) exon_flattened).

(** Two exons of chr1, the second across the end of the first window, and
    a read inside the second exon, across the same boundary. *)
Definition boundary_exons : list Exon.row :=
  [Exon.mk "chr1" 0 100 "tranA" 0 100;
   Exon.mk "chr1" 224980 225030 "tranA" 100 150].

(** The sum of the counts of the rows of key [k]. *)
Definition count_of `{EqDecision K} (k : K) (rows : list (K * Z)) : Z :=
  sum_list (filter (λ kn, kn.1 = k) rows).*2.

(** The row of [df_asite] a read gives: its chromosome, its A-site, its
    count. *)
Definition a_site_row (offsets : gmap Z Z) (r : BamCds.row)
  : string * Z * Z :=
  (BamCds.chr r,
   wrap64 (BamCds.start r + default 0 (offsets !! BamCds.length r)),
   BamCds.count r).

(** Every length of the table has an offset. *)
Definition covered (offsets : gmap Z Z) (df : list BamCds.row) : Prop :=
  Forall (λ r, is_Some (offsets !! BamCds.length r)) df.

(** The last four statements of [asitecalc], from [group_by] on. *)
Definition bed_of (df_asite : list (string * Z * Z)) : list Bed.row :=
  merge_sort bed_le
    ((λ g, Bed.mk g.1.1 g.1.2 (wrap64 (g.1.2 + 1)) g.2)
       <$> group_by_sum ((λ x, ((x.1.1, x.1.2), x.2)) <$> df_asite)).

(** The chromosome and A-site of a row of the result. *)
Definition bed_key (b : Bed.row) : string * Z := (Bed.chr b, Bed.A_site b).

(** The chromosome and A-site of the row a read gives. *)
Definition a_site_key (offsets : gmap Z Z) (r : BamCds.row) : string * Z :=
  (BamCds.chr r,
   wrap64 (BamCds.start r + default 0 (offsets !! BamCds.length r))).

(** Two reads of chr1 that land on position 115, with counts 3 and 4. *)
Definition scenario_D : list BamCds.row :=
  [BamCds.mk 3 "chr1" 100 130 30 "tranA" 5;
   BamCds.mk 4 "chr1" 103 131 28 "tranA" 8].
Definition scenario_D_offsets : gmap Z Z := <[28 := 12]> (<[30 := 15]> ∅).

(** Five reads of two lengths on three chromosomes; counts total 13. *)
Definition five_reads : list BamCds.row :=
  [BamCds.mk 3 "chr1" 100 130 30 "tranA" 5;
   BamCds.mk 4 "chr1" 103 131 28 "tranA" 8;
   BamCds.mk 2 "chr2" 10 40 30 "tranB" 5;
   BamCds.mk 2 "chr10" 10 40 30 "tranC" 5;
   BamCds.mk 2 "chr1" 10 40 30 "tranA" 5].

(** ** The entry point: [dftobed]

    Strings are sequences of ASCII characters, as the read names of an
    alignment file are. *)

(** The exceptions that leave [dftobed]: the [IndexError] of [split_func]
    and those of the stages it calls. *)
Inductive exception : Set :=
| IndexError          (* a list subscript out of range *)
| Raised (e : error).

Inductive outcome (A : Type) : Type :=
| Done (a : A)
| Raise (x : exception).
Arguments Done {A} a.
Arguments Raise {A} x.

#[global] Instance outcome_ret : MRet outcome := λ A, Done.
#[global] Instance outcome_bind : MBind outcome := λ A B k m,
  match m with
  | Done a => k a
  | Raise x => Raise x
  end.

Definition lift {A} (r : result A) : outcome A :=
  match r with
  | Ok a => Done a
  | Err e => Raise (Raised e)
  end.

(** A row of the alignment table [df], without the columns that the first
    [select] of [dftobed] drops ([flag], [qual], [tags], [mapq], [tlen],
    [seq], [pnext], [rnext], [cigar]); [end_] is the column [end]. *)
Module Sam.
Record row : Set := mk { qname : string; rname : string; pos : Z; end_ : Z }.
End Sam.

(** Puts a character in front of the first piece. *)
Definition cons_piece (c : Ascii.ascii) (pieces : list string) : list string :=
  match pieces with
  | piece :: pieces' => String c piece :: pieces'
  | [] => [String c ""]
  end.

(** [s.split("_x")]: the pieces of [s] between the occurrences of ["_x"],
    taken from the left and not overlapping. *)
Fixpoint split_x (s : string) : list string :=
  match s with
  | EmptyString => [""]
  | String c s' =>
      match s' with
      | String c' s'' =>
          if (Ascii.eqb c "_"%char && Ascii.eqb c' "x"%char)%bool
          then "" :: split_x s''
          else cons_piece c (split_x s')
      | EmptyString => cons_piece c (split_x s')
      end
  end.

(** The characters [int] skips at both ends of an ASCII string: tab, line
    feed, vertical tab, form feed, carriage return, space. *)
Definition is_space (c : Ascii.ascii) : bool :=
  let n := Z.of_N (Ascii.N_of_ascii c) in
  ((9 <=? n) && (n <=? 13)) || (n =? 32).

Definition digit_of (c : Ascii.ascii) : option Z :=
  let n := Z.of_N (Ascii.N_of_ascii c) in
  if (48 <=? n) && (n <=? 57) then Some (n - 48) else None.

Fixpoint lstrip (s : string) : string :=
  match s with
  | EmptyString => ""
  | String c s' => if is_space c then lstrip s' else s
  end.

Fixpoint rstrip (s : string) : string :=
  match s with
  | EmptyString => ""
  | String c s' =>
      match rstrip s' with
      | EmptyString => if is_space c then "" else String c ""
      | r => String c r
      end
  end.

(** The digits after the first one: [acc] is the value read so far, [n]
    the number of digits read.  An underscore is taken only between two
    digits. *)
Fixpoint digits_go (s : string) (acc n : Z) : option (Z * Z) :=
  match s with
  | EmptyString => Some (acc, n)
  | String c s' =>
      if Ascii.eqb c "_"%char then
        match s' with
        | String c' s'' =>
            d ← digit_of c'; digits_go s'' (10 * acc + d) (n + 1)
        | EmptyString => None
        end
      else d ← digit_of c; digits_go s' (10 * acc + d) (n + 1)
  end.

(** Python's [int(s)] on an ASCII string: optional blanks, an optional
    sign, decimal digits with single underscores between them, optional
    blanks; more than 4300 digits are refused (the default limit of
    the interpreter).  Anything else is a [ValueError]. *)
Definition py_int (s : string) : result Z :=
  let s := rstrip (lstrip s) in
  let '(negative, s) :=
    match s with
    | String c s' =>
        if Ascii.eqb c "-"%char then (true, s')
        else if Ascii.eqb c "+"%char then (false, s')
        else (false, s)
    | EmptyString => (false, s)
    end in
  match s with
  | String c s' =>
      match d ← digit_of c; digits_go s' d 1 with
      | Some (v, n) =>
          if 4300 <? n then Err ValueError
          else Ok (if negative : bool then - v else v)
      | None => Err ValueError
      end
  | EmptyString => Err ValueError
  end.

(** [split_func = lambda s: int(s.split("_x")[1])]. *)
Definition split_func (s : string) : outcome Z :=
  match split_x s !! 1%nat with
  | Some piece => lift (py_int piece)
  | None => Raise IndexError
  end.

(** A row of [df_namesplit]: [length = end - pos], [qname] replaced by the
    count read from it, and the columns renamed. *)
Definition namesplit_row (r : Sam.row) : outcome Bam.row :=
  count ← split_func (Sam.qname r);
  Done (Bam.mk count (Sam.rname r) (Sam.pos r) (Sam.end_ r)
          (wrap64 (Sam.end_ r - Sam.pos r))).

(** [bam_to_cds.group_by("bamcds_start", "length").agg(count.sum())]. *)
Definition bam_offsets_of (bam_to_cds : list BamCds.row) : list Hist.row :=
  (λ g, Hist.mk g.1.1 g.1.2 g.2)
    <$> group_by_sum
          ((λ r, ((BamCds.bamcds_start r, BamCds.length r), BamCds.count r))
             <$> bam_to_cds).

(** [not offsets]: true of [None] and of the empty dict. *)
Definition not_offsets (offsets : option (gmap Z Z)) : bool :=
  match offsets with
  | None => true
  | Some d => bool_decide (d = ∅)
  end.

Section dftobed.

(** [getexons_and_cds], of the module [findexonscds]: the CDS table and the
    exon table of an annotation. *)
Context {Annotation : Type}.
Context (getexons_and_cds : Annotation → list Cds.row * list Exon.row).

Definition dftobed (df : list Sam.row) (annotation : Annotation)
    (offsets : option (gmap Z Z))
  : outcome (list Bed.row * list Exon.row * list Cds.row) :=
  df_namesplit ← mapM namesplit_row df;
  let '(cds_df, exon_df) := getexons_and_cds annotation in
  bam_tran ← lift (bamtranscript df_namesplit exon_df);
  bam_to_cds ← lift (bamrelativetocds bam_tran cds_df);
  let offsets :=
    if not_offsets offsets
    then change_point_analysis (bam_offsets_of bam_to_cds)
    else default ∅ offsets in
  bed ← lift (asitecalc bam_to_cds offsets);
  Done (bed, exon_df, cds_df).

End dftobed.

(** ** Further definitions used by the statements *)

(** Length [length] has a shift at the last candidate: the sums of its
    counts over [[11, 14]] and over [[7, 10]] differ as floats. *)
Definition peak (offset_df : list Hist.row) (length : Z) : Prop :=
  let offset_df_len := filter (λ r, Hist.length r = length) offset_df in
  round53 (sum_list (counts_in offset_df_len 11 15))
    ≠ round53 (sum_list (counts_in offset_df_len 7 11)).

(** The row of the result a projected read gives: none when [cdsdf] has
    no row for its transcript, the row of the last one otherwise. *)
Definition cds_relative (cdsdf : list Cds.row) (x : Tran.row)
  : option BamCds.row :=
  c ← last (filter (λ c, Cds.tran_id c = Tran.tran_id x) cdsdf);
  Some (BamCds.mk (Tran.count x) (Tran.chr x) (Tran.start x)
          (Tran.stop x) (Tran.length x) (Tran.tran_id x)
          (Tran.tran_start_bam x - Cds.tran_start c)).

(** The same, on the histogram of the specification. *)
Definition hist_peak (offset_df : list Hist.row) (length : Z) : Prop :=
  round53 (sum_list (histogram offset_df length <$> range 11 15))
    ≠ round53 (sum_list (histogram offset_df length <$> range 7 11)).

(** A coordinate of a genome or a transcript: not negative, and small
    enough for the sums and differences of two of them to fit a column. *)
Definition coordinate (z : Z) : Prop := 0 ≤ z < 4611686018427387904.

(** The sums of the groups, in exact arithmetic. *)
Fixpoint add_count_exact `{EqDecision K} (k : K) (n : Z)
    (groups : list (K * Z)) : list (K * Z) :=
  match groups with
  | [] => [(k, n)]
  | (k', n') :: groups' =>
      if decide (k' = k) then (k', n' + n) :: groups'
      else (k', n') :: add_count_exact k n groups'
  end.

Definition group_by_sum_exact `{EqDecision K} (rows : list (K * Z))
  : list (K * Z) :=
  foldl (λ groups kn, add_count_exact kn.1 kn.2 groups) [] rows.

(** The two reads of [scenario_D], with counts of [2^62] each. *)
Definition two_large_counts : list BamCds.row :=
  [BamCds.mk 4611686018427387904 "chr1" 100 130 30 "tranA" 5;
   BamCds.mk 4611686018427387904 "chr1" 103 131 28 "tranA" 8].

(** An exon of chr1 over [[90, 200]] whose transcript coordinates are the
    last eight values of their column. *)
Definition far_exon : Exon.row :=
  Exon.mk "chr1" 90 200 "tranA" 9223372036854775800 9223372036854775807.

#[global] Instance peak_dec offset_df length : Decision (peak offset_df length).
Proof. unfold peak. apply _. Defined.

#[global] Instance hist_peak_dec offset_df length :
  Decision (hist_peak offset_df length).
Proof. unfold hist_peak. apply _. Defined.

(** [s] holds ["_x"] somewhere. *)
Definition has_x (s : string) : Prop := ∃ a b, s = a +:+ "_x" +:+ b.

(** The value of a string of decimal digits. *)
Definition decimal (s : string) : Z :=
  foldl (λ acc c, 10 * acc + (Z.of_N (Ascii.N_of_ascii c) - 48)) 0
        (String.list_ascii_of_string s).

Definition is_digit (c : Ascii.ascii) : Prop := is_Some (digit_of c).

(** * Properties *)

(** ** The frame primitives *)

Section unique.
Context `{EqDecision A}.
Implicit Types l : list A.

Lemma elem_of_unique l x : x ∈ unique l ↔ x ∈ l.
Proof.
  induction l as [|y l IH]; simpl; [done|].
  rewrite !elem_of_cons, list_elem_of_filter, IH.
  destruct (decide (x = y)); tauto.
Qed.

Lemma NoDup_unique l : NoDup (unique l).
Proof.
  induction l as [|y l IH]; simpl; constructor.
  - rewrite list_elem_of_filter. tauto.
  - by apply NoDup_filter.
Qed.

Lemma unique_nil l : unique l = [] ↔ l = [].
Proof. by destruct l. Qed.
End unique.

(** [unique_int] has the values of the column, each once, in ascending
    order. *)
Lemma elem_of_unique_int l x : x ∈ unique_int l ↔ x ∈ l.
Proof. unfold unique_int. by rewrite merge_sort_Permutation, elem_of_unique. Qed.

Lemma NoDup_unique_int l : NoDup (unique_int l).
Proof.
  unfold unique_int. rewrite merge_sort_Permutation. apply NoDup_unique.
Qed.

Lemma unique_int_sorted l : StronglySorted Z.le (unique_int l).
Proof. apply StronglySorted_merge_sort; apply _. Qed.

(** Where a value stands in [unique_int]: after the smaller ones, before
    the larger ones. *)
Lemma unique_int_split l before x after :
  unique_int l = before ++ x :: after →
  Forall (λ y, y < x) before ∧ Forall (λ y, x < y) after.
Proof.
  intros Hsplit.
  pose proof (NoDup_unique_int l) as Hnd.
  pose proof (unique_int_sorted l) as Hsorted.
  rewrite Hsplit in Hnd, Hsorted. clear Hsplit.
  apply NoDup_app in Hnd as (_ & Hdisj & Hnd).
  apply NoDup_cons in Hnd as [Hx _].
  apply StronglySorted_app in Hsorted as (Hle & _ & Hsorted).
  apply StronglySorted_inv in Hsorted as [_ Hafter].
  split; apply Forall_forall; intros y Hy.
  - specialize (Hle y x Hy). specialize (Hdisj y Hy).
    rewrite elem_of_cons in Hle, Hdisj.
    assert (y ≤ x) by auto. assert (y ≠ x) by tauto. lia.
  - rewrite Forall_forall in Hafter. specialize (Hafter y Hy).
    assert (y ≠ x) by (intros ->; done). lia.
Qed.

(** ** 64-bit columns *)

Lemma wrap64_int64 z : int64 z → wrap64 z = z.
Proof. unfold int64, wrap64. intros Hz. rewrite Z.mod_small; lia. Qed.

Lemma int64_wrap64 z : int64 (wrap64 z).
Proof.
  unfold int64, wrap64.
  pose proof (Z.mod_pos_bound (z + 9223372036854775808)
                18446744073709551616).
  lia.
Qed.

Lemma wrap64_add_l a b : wrap64 (wrap64 a + b) = wrap64 (a + b).
Proof.
  unfold wrap64. f_equal.
  replace ((a + 9223372036854775808) `mod` 18446744073709551616
           - 9223372036854775808 + b + 9223372036854775808)
    with ((a + 9223372036854775808) `mod` 18446744073709551616 + b) by lia.
  rewrite Zplus_mod_idemp_l. f_equal. lia.
Qed.

(** What [wrap64] keeps of an exact result: the value of the column
    that differs from it by a multiple of [2^64]; the exact result itself
    when it is a value of the column. *)
Lemma wrap64_spec z :
  int64 (wrap64 z)
  ∧ (wrap64 z - z) `mod` 18446744073709551616 = 0
  ∧ (int64 z → wrap64 z = z).
Proof.
  split; [apply int64_wrap64|]. split; [|apply wrap64_int64].
  unfold wrap64.
  rewrite (Z.mod_eq (z + 9223372036854775808) 18446744073709551616)
    by done.
  replace (z + 9223372036854775808
           - 18446744073709551616
             * ((z + 9223372036854775808) `div` 18446744073709551616)
           - 9223372036854775808 - z)
    with (- ((z + 9223372036854775808) `div` 18446744073709551616)
          * 18446744073709551616) by lia.
  apply Z.mod_mul. done.
Qed.

Section mapM_result.
Context {A B : Type} (f : A → result B).

Lemma mapM_Ok_fmap (g : A → B) l :
  Forall (λ x, f x = Ok (g x)) l → mapM f l = Ok (g <$> l).
Proof.
  induction 1 as [|x l Hx _ IH]; [done|].
  cbn. rewrite Hx. cbn. rewrite IH. done.
Qed.

Lemma mapM_Err l e :
  mapM f l = Err e → Exists (λ x, f x = Err e) l.
Proof.
  induction l as [|x l IH]; [done|]. cbn.
  destruct (f x) as [b|e'] eqn:Hx; cbn.
  - destruct (mapM f l) as [bs|e'']; cbn; [done|].
    intros [= ->]. right. by apply IH.
  - intros [= ->]. by left.
Qed.

Lemma mapM_Ok_inv l bs :
  mapM f l = Ok bs → Forall2 (λ x b, f x = Ok b) l bs.
Proof.
  revert bs. induction l as [|x l IH]; intros bs; cbn.
  - intros [= <-]. constructor.
  - destruct (f x) as [b|e'] eqn:Hx; cbn; [|done].
    destruct (mapM f l) as [bs'|e'']; cbn; [|done].
    intros [= <-]. constructor; auto.
Qed.
End mapM_result.

Lemma foldl_snoc {A B} (f : A → B → A) a l x :
  foldl f a (l ++ [x]) = f (foldl f a l) x.
Proof. by rewrite foldl_app. Qed.

Lemma range_scan : range (-30) 11 =
  [-30; -29; -28; -27; -26; -25; -24; -23; -22; -21; -20; -19; -18; -17;
   -16; -15; -14; -13; -12; -11; -10; -9; -8; -7; -6; -5; -4; -3; -2; -1;
   0; 1; 2; 3; 4; 5; 6; 7; 8; 9; 10].
Proof. reflexivity. Qed.

(** ** Offset inference *)

(** When the scan is over, [i] is the last candidate and [left_], [right_]
    are those of that candidate: the forty earlier pairs of windows are
    overwritten before anything reads them. *)
Lemma scan_last offset_df_len :
  scan offset_df_len =
    (10, counts_in offset_df_len 7 11, counts_in offset_df_len 11 15).
Proof. unfold scan. rewrite range_scan. reflexivity. Qed.

Lemma cp_inv_init : cp_inv cp_init.
Proof. split; [by left|]. apply map_Forall_empty. Qed.

Lemma cp_inv_step offset_df st length :
  cp_inv st → cp_inv (cp_step offset_df st length).
Proof.
  intros [Hpos Hdict]. unfold cp_step. rewrite scan_last.
  destruct (Qgtb _ _); simpl.
  - split; [by right|]. apply map_Forall_insert_2; auto.
  - split; [done|]. apply map_Forall_insert_2; [|done].
    destruct Hpos as [-> | ->]; auto.
Qed.

Lemma cp_inv_foldl offset_df order st :
  cp_inv st → cp_inv (foldl (cp_step offset_df) st order).
Proof.
  revert st. induction order as [|length order IH]; intros st Hst; [done|].
  simpl. apply IH. by apply cp_inv_step.
Qed.

(** Whatever the histogram and whatever the order of the lengths, the
    only offsets [change_point_analysis] ever returns are 10 and 15. *)
Lemma change_point_analysis_in_10_or_15 order offset_df length o :
  change_point_analysis_in order offset_df !! length = Some o →
  o = 10 ∨ o = 15.
Proof.
  intros Ho.
  destruct (cp_inv_foldl offset_df order cp_init cp_inv_init) as [_ Hd].
  exact (Hd _ _ Ho).
Qed.

(** The stable sort moves no row past a row of the same position, so the
    first row of a position is the same before and after. *)
Lemma insert_by_bamcds_start_filter r l j :
  filter (λ r, Hist.bamcds_start r = j) (insert_by_bamcds_start r l)
  = filter (λ r, Hist.bamcds_start r = j) (r :: l).
Proof.
  induction l as [|r' l IH]; [done|]. cbn [insert_by_bamcds_start].
  destruct (decide (Hist.bamcds_start r ≤ Hist.bamcds_start r')) as [|Hlt];
    [done|].
  rewrite filter_cons, IH, !filter_cons.
  destruct (decide (Hist.bamcds_start r' = j)),
    (decide (Hist.bamcds_start r = j)); try done.
  lia.
Qed.

Lemma sort_by_bamcds_start_filter l j :
  filter (λ r, Hist.bamcds_start r = j) (sort_by_bamcds_start l)
  = filter (λ r, Hist.bamcds_start r = j) l.
Proof.
  induction l as [|r l IH]; [done|]. unfold sort_by_bamcds_start in *.
  cbn [foldr]. rewrite insert_by_bamcds_start_filter, !filter_cons, IH. done.
Qed.

Lemma counts_in_sort l lo hi :
  counts_in (sort_by_bamcds_start l) lo hi = counts_in l lo hi.
Proof.
  unfold counts_in. apply list_fmap_ext. intros _ j _.
  unfold count_at. by rewrite sort_by_bamcds_start_filter.
Qed.

(** An integer and the double nearest to it are zero together, and are
    the same below [2^53]. *)
Lemma round53_eq_0 n : round53 n = 0 → n = 0.
Proof.
  unfold round53.
  destruct (Z.leb_spec (Z.log2 (Z.abs n) - 52) 0) as [|He]; [done|].
  assert (0 < Z.abs n) as Ha.
  { destruct (decide (0 < Z.abs n)); [done|].
    rewrite Z.log2_nonpos in He by lia. lia. }
  assert (2 ^ (Z.log2 (Z.abs n) - 52) ≤ Z.abs n) as Hle.
  { etrans; [|apply Z.log2_spec; done]. apply Z.pow_le_mono_r; lia. }
  assert (0 < 2 ^ (Z.log2 (Z.abs n) - 52)) as Hpos
    by (apply Z.pow_pos_nonneg; lia).
  assert (1 ≤ Z.abs n `div` 2 ^ (Z.log2 (Z.abs n) - 52)) as Hq
    by (apply Z.div_le_lower_bound; lia).
  intros Hz. apply Z.mul_eq_0 in Hz as [Hz|Hz].
  - by apply Z.sgn_null_iff.
  - apply Z.mul_eq_0 in Hz as [Hz|Hz]; [|lia].
    destruct (_ || _); lia.
Qed.

Lemma round53_small n : Z.abs n < 9007199254740992 → round53 n = n.
Proof.
  intros Hn. unfold round53.
  destruct (Z.leb_spec (Z.log2 (Z.abs n) - 52) 0) as [|He]; [done|].
  assert (Z.log2 (Z.abs n) < 53); [|lia].
  destruct (decide (0 < Z.abs n)).
  - by apply Z.log2_lt_pow2.
  - rewrite Z.log2_nonpos by lia. lia.
Qed.

(** The difference of two means, as the floats compute it. *)
Lemma float_sub_mean4 r l :
  float_sub (float_mean4 r) (float_mean4 l)
  = (inject_Z (round53 (round53 (sum_list r) - round53 (sum_list l))) / 4)%Q.
Proof.
  unfold float_sub, round_quarter, float_mean4.
  generalize (round53 (sum_list r)) (round53 (sum_list l)). intros a b.
  replace (Qfloor ((inject_Z a / 4 - inject_Z b / 4) * 4)) with (a - b);
    [done|].
  unfold Qfloor, Qminus, Qplus, Qopp, Qdiv, Qmult, Qinv, inject_Z. simpl.
  apply Z.div_unique_exact; lia.
Qed.

(** The shift is positive exactly when the sums of the two windows differ
    as floats. *)
Lemma Qgtb_shift l r :
  Qgtb (Qabs (float_sub (float_mean4 r) (float_mean4 l))) 0 = true
  ↔ round53 (sum_list r) ≠ round53 (sum_list l).
Proof.
  rewrite float_sub_mean4. unfold Qgtb.
  rewrite negb_true_iff, <-not_true_iff_false, Qle_bool_iff.
  generalize (round53 (sum_list r)) (round53 (sum_list l)). intros a b.
  assert (round53 (a - b) = 0 ↔ a = b) as Hz.
  { split; [intros H%round53_eq_0; lia|].
    intros ->. by rewrite Z.sub_diag. }
  revert Hz. generalize (round53 (a - b)). intros m Hz.
  unfold Qle, Qabs, Qdiv, Qmult, Qinv, inject_Z. simpl.
  rewrite <-Hz. lia.
Qed.

(** What the first length visited gets: 10 when the sums of its counts
    over [[11, 14]] and over [[7, 10]] differ as floats, the fallback 15
    otherwise.  No other position of its profile is looked at. *)
Lemma change_point_analysis_in_single offset_df length :
  change_point_analysis_in [length] offset_df !! length =
    Some (if decide (peak offset_df length) then 10 else 15).
Proof.
  unfold change_point_analysis_in, peak. cbn [foldl].
  unfold cp_step. rewrite scan_last, !counts_in_sort.
  cbn [max_shift max_shift_position cp_init].
  destruct (Qgtb _ _) eqn:Hgt; cbn [offset_dict]; rewrite lookup_insert_eq.
  - apply Qgtb_shift in Hgt. by rewrite decide_True.
  - rewrite decide_False; [done|]. intros Hne%Qgtb_shift. congruence.
Qed.

(** The state a length leaves behind reaches every later length: once
    some length set the recorded position, no later length falls back to
    15, whatever its own histogram. *)
Lemma cp_step_after_peak offset_df st length :
  max_shift_position st = Some 10 →
  max_shift_position (cp_step offset_df st length) = Some 10
  ∧ offset_dict (cp_step offset_df st length) !! length = Some 10.
Proof.
  intros Hpos. unfold cp_step. rewrite scan_last.
  destruct (Qgtb _ _); simpl; rewrite ?Hpos, lookup_insert_eq; done.
Qed.

(** C1 (fails on the code).  On a profile whose counts sit at positions
    0..20, with nothing below 0, the candidate of maximal shift in
    [-30, 10] is -1 (first maximum); [change_point_analysis] returns the
    fallback 15.  With the counts at 0..12 the maximal candidate is still
    -1 and the function returns 10.  Only the last candidate, 10, is ever
    compared. *)
Theorem change_point_analysis_misses_change_point :
  spec_offset (histogram scenario_B 30) = -1
  ∧ change_point_analysis scenario_B !! 30 = Some 15
  ∧ spec_offset (histogram scenario_B_short 30) = -1
  ∧ change_point_analysis scenario_B_short !! 30 = Some 10.
Proof. repeat split; vm_compute; reflexivity. Qed.

(** C2 (fails on the code).  [flat_30] and [peak_28_flat_30] have the same
    rows of length 30, yet length 30 gets 15 from the first and 10 from
    the second; and on the second the offset of length 30 changes with the
    order in which the two lengths are visited. *)
Theorem change_point_analysis_depends_on_other_lengths :
  filter (λ r, Hist.length r = 30) peak_28_flat_30
    = filter (λ r, Hist.length r = 30) flat_30
  ∧ change_point_analysis flat_30 !! 30 = Some 15
  ∧ change_point_analysis peak_28_flat_30 !! 30 = Some 10
  ∧ change_point_analysis_in [28; 30] peak_28_flat_30 !! 30 = Some 10
  ∧ change_point_analysis_in [30; 28] peak_28_flat_30 !! 30 = Some 15.
Proof. repeat split; vm_compute; reflexivity. Qed.

(** C3 (fails on the code).  In [peak_28_flat_30] the profile of length
    30 is flat: no candidate of the scan range has a positive shift, and
    the rule of the specification gives 15.  Visited after length 28, it
    is given 10. *)
Theorem change_point_analysis_flat_profile_not_15 :
  Forall (λ i, Qgtb (spec_shift (histogram peak_28_flat_30 30) i) 0 = false)
         (range (-30) 11)
  ∧ spec_offset (histogram peak_28_flat_30 30) = 15
  ∧ change_point_analysis peak_28_flat_30 !! 30 = Some 10.
Proof.
  split; [|split; vm_compute; reflexivity].
  rewrite range_scan. repeat (constructor; [vm_compute; reflexivity|]).
  constructor.
Qed.

(** ** Transcript projection *)

Lemma elem_of_join bam_df exon_df j :
  j ∈ join bam_df exon_df ↔
  ∃ r e, r ∈ bam_df ∧ e ∈ exon_df ∧ Bam.chr r = Exon.chr e
    ∧ j = Joined.mk (Bam.count r) (Bam.chr r) (Bam.start r) (Bam.stop r)
            (Bam.length r) (Exon.start e) (Exon.stop e)
            (Exon.tran_id e) (Exon.tran_start e) (Exon.tran_stop e).
Proof.
  unfold join, joined. destruct (decide _); rewrite list_elem_of_bind; split.
  - intros (r & Hj & Hr). apply list_elem_of_bind in Hj as (e & Hj & He).
    apply list_elem_of_filter in He as [Hchr He].
    apply list_elem_of_singleton in Hj. eauto 10.
  - intros (r & e & Hr & He & Hchr & ->). exists r. split; [|done].
    apply list_elem_of_bind. exists e. split.
    + by apply list_elem_of_singleton.
    + by apply list_elem_of_filter.
  - intros (e & Hj & He). apply list_elem_of_bind in Hj as (r & Hj & Hr).
    apply list_elem_of_filter in Hr as [Hchr Hr].
    apply list_elem_of_singleton in Hj. eauto 10.
  - intros (r & e & Hr & He & Hchr & ->). exists e. split; [|done].
    apply list_elem_of_bind. exists r. split.
    + by apply list_elem_of_singleton.
    + by apply list_elem_of_filter.
Qed.

Lemma elem_of_get_bam_tran bam_df exon_df t :
  t ∈ get_bam_tran bam_df exon_df ↔
  ∃ r e, r ∈ bam_df ∧ e ∈ exon_df ∧ Bam.chr r = Exon.chr e
    ∧ (Bam.start r >= Exon.start e ∧ Bam.stop r ≤ Exon.stop e)
    ∧ t = projected r e.
Proof.
  unfold get_bam_tran. rewrite list_elem_of_fmap. split.
  - intros (j & -> & Hj). apply list_elem_of_filter in Hj as [Hin Hj].
    apply elem_of_join in Hj as (r & e & Hr & He & Hchr & ->).
    exists r, e. done.
  - intros (r & e & Hr & He & Hchr & Hin & ->).
    eexists. split; [|apply list_elem_of_filter; split;
      [|apply elem_of_join; exists r, e; done]]; done.
Qed.

Lemma elem_of_window `{Interval A} (df : list A) i (r : A) :
  r ∈ filter (in_window i (i + 225000)) df ↔
  r ∈ df ∧ i ≤ start r ∧ stop r ≤ i + 225000.
Proof. rewrite list_elem_of_filter. unfold in_window. intuition lia. Qed.

Lemma elem_of_window_bam (df : list Bam.row) i r :
  r ∈ filter (in_window i (i + 225000)) df ↔
  r ∈ df ∧ i ≤ Bam.start r ∧ Bam.stop r ≤ i + 225000.
Proof. exact (elem_of_window df i r). Qed.

Lemma elem_of_window_exon (df : list Exon.row) i e :
  e ∈ filter (in_window i (i + 225000)) df ↔
  e ∈ df ∧ i ≤ Exon.start e ∧ Exon.stop e ≤ i + 225000.
Proof. exact (elem_of_window df i e). Qed.

(** C4, as stated, fails: [boundary_read] starts within
    [[0, 0 + 225000)] and is not in the window starting at 0, while
    [inner_read], with the same start, is: the stop decides. *)
Lemma boundary_read_outside_window :
  (0 ≤ Bam.start boundary_read < 0 + 225000)
  ∧ filter (in_window 0 (0 + 225000)) [boundary_read; inner_read]
    = [inner_read]
  ∧ Bam.start boundary_read = Bam.start inner_read.
Proof. split; [|split]; [vm_compute; intuition discriminate | done..]. Qed.

(** C4, amended.  A read or an exon of the chromosome is in the window
    that starts at [i] exactly when its start is at least [i] and its stop
    at most [i + 225000]; and a read [r] and an exon [e] contribute their
    projected row to that window's result exactly when both are in the
    window and the read lies within the exon. *)
Theorem window_membership bam_with_chr exon_with_chr i :
  (∀ r : Bam.row,
     r ∈ filter (in_window i (i + 225000)) bam_with_chr ↔
     r ∈ bam_with_chr ∧ i ≤ Bam.start r ∧ Bam.stop r ≤ i + 225000)
  ∧ (∀ e : Exon.row,
     e ∈ filter (in_window i (i + 225000)) exon_with_chr ↔
     e ∈ exon_with_chr ∧ i ≤ Exon.start e ∧ Exon.stop e ≤ i + 225000)
  ∧ (∀ t : Tran.row,
     t ∈ mjoin (window_result bam_with_chr exon_with_chr i) ↔
     ∃ r e, (r ∈ bam_with_chr ∧ i ≤ Bam.start r ∧ Bam.stop r ≤ i + 225000)
       ∧ (e ∈ exon_with_chr ∧ i ≤ Exon.start e ∧ Exon.stop e ≤ i + 225000)
       ∧ Bam.chr r = Exon.chr e
       ∧ (Bam.start r >= Exon.start e ∧ Bam.stop r ≤ Exon.stop e)
       ∧ t = projected r e).
Proof.
  split; [|split].
  - intros r. apply elem_of_window_bam.
  - intros e. apply elem_of_window_exon.
  - intros t. unfold window_result. case_decide as Hne.
    + simpl. rewrite app_nil_r, elem_of_get_bam_tran.
      setoid_rewrite elem_of_window_bam.
      setoid_rewrite elem_of_window_exon.
      split; intros (r & e & H); exists r, e; tauto.
    + simpl. split; [by intros ?%elem_of_nil|].
      intros (r & e & Hr & He & _). exfalso. apply Hne.
      apply elem_of_window_bam in Hr.
      apply elem_of_window_exon in He.
      split; intros Heq; rewrite Heq in *; by eapply elem_of_nil.
Qed.

(** C5, as stated, fails: the read (chr1, 100, 130) lies within
    [far_exon], the pair is kept, and the sum
    [exon.tran_start + (read.start - exon.start)] is [2^63 + 2]; the
    column holds [-2^63 + 2]. *)
Lemma get_bam_tran_projection_wraps :
  get_bam_tran [scenario_A_read] [far_exon]
    = [Tran.mk 1 "chr1" 100 130 30 "tranA"
         (-9223372036854775806) 9223372036854775737]
  ∧ Exon.tran_start far_exon
      + (Bam.start scenario_A_read - Exon.start far_exon)
    = 9223372036854775810.
Proof. split; vm_compute; reflexivity. Qed.

(** C5, amended.  Of the pairs of a read and an exon of the two tables
    joined in a window, [get_bam_tran] keeps exactly those that share the
    chromosome and have [read.start >= exon.start] and
    [read.stop <= exon.stop]; the row of a kept pair has
    [tran_start_bam = exon.tran_start + (read.start - exon.start)] and
    [tran_stop_bam = exon.tran_stop - (exon.stop - read.stop)], every sum
    and difference being that of a 64-bit column: it wraps around, and is
    the exact one whenever the exact one fits.  The read (chr1, 100, 130)
    against the exon (chr1, 90, 200, tranA, 0, 110) is projected to
    [tran_start_bam = 10], and with the CDS start 5 of tranA to
    [bamcds_start = 5]. *)
Theorem get_bam_tran_containment_projection :
  (∀ bam_df exon_df t,
     t ∈ get_bam_tran bam_df exon_df ↔
     ∃ r e, r ∈ bam_df ∧ e ∈ exon_df ∧ Bam.chr r = Exon.chr e
       ∧ (Bam.start r >= Exon.start e ∧ Bam.stop r ≤ Exon.stop e)
       ∧ t = Tran.mk (Bam.count r) (Bam.chr r) (Bam.start r) (Bam.stop r)
               (Bam.length r) (Exon.tran_id e)
               (wrap64 (Exon.tran_start e
                        + wrap64 (Bam.start r - Exon.start e)))
               (wrap64 (Exon.tran_stop e
                        - wrap64 (Exon.stop e - Bam.stop r))))
  ∧ (∀ z, int64 (wrap64 z)
          ∧ (wrap64 z - z) `mod` 18446744073709551616 = 0
          ∧ (int64 z → wrap64 z = z))
  ∧ bamtranscript [scenario_A_read] [scenario_A_exon]
    = Ok [Some (Tran.mk 1 "chr1" 100 130 30 "tranA" 10 40)]
  ∧ bamrelativetocds [Some (Tran.mk 1 "chr1" 100 130 30 "tranA" 10 40)]
      [scenario_A_cds]
    = Ok [BamCds.mk 1 "chr1" 100 130 30 "tranA" 5].
Proof.
  split; [|split; [|split]];
    [|apply wrap64_spec|vm_compute; reflexivity..].
  intros bam_df exon_df t. apply elem_of_get_bam_tran.
Qed.

(** *** When [results] stays empty *)

Lemma chr_results_Ok bam_df exon_flattened chr :
  filter (λ e, Exon.chr e = chr) exon_flattened ≠ [] →
  chr_results bam_df exon_flattened chr
    = Ok (chr_windows bam_df exon_flattened chr).
Proof.
  intros Hne. unfold chr_results, chr_windows, window_starts.
  destruct (filter _ exon_flattened) as [|e l]; [done|]. reflexivity.
Qed.

(** A chromosome of the restricted read table has an exon in the
    restricted exon table: [min] and [max] never see an empty column. *)
Lemma shared_exon_nonempty bam_df exon_df chr :
  chr ∈ Bam.chr <$> shared_bam bam_df exon_df →
  filter (λ e, Exon.chr e = chr) (shared_exon bam_df exon_df) ≠ [].
Proof.
  intros (r & -> & Hr)%list_elem_of_fmap.
  apply list_elem_of_filter in Hr as [Hin Hr].
  apply elem_of_unique, list_elem_of_fmap in Hin as (e & Hchr & He).
  intros Hnil.
  assert (e ∈ filter (λ e, Exon.chr e = Bam.chr r)
                (shared_exon bam_df exon_df)) as Hin.
  { apply list_elem_of_filter. split; [done|].
    apply list_elem_of_filter. split; [|done].
    apply elem_of_unique, list_elem_of_fmap. exists r. by rewrite <-Hchr. }
  rewrite Hnil in Hin. by apply elem_of_nil in Hin.
Qed.

Lemma bamtranscript_results_Ok bam_df exon_df :
  bamtranscript_results bam_df exon_df =
    Ok (mjoin (chr_windows (shared_bam bam_df exon_df)
                           (shared_exon bam_df exon_df)
                 <$> unique (Bam.chr <$> shared_bam bam_df exon_df))).
Proof.
  unfold bamtranscript_results.
  rewrite (mapM_Ok_fmap _ (chr_windows (shared_bam bam_df exon_df)
                                       (shared_exon bam_df exon_df))).
  - reflexivity.
  - apply Forall_forall. intros chr Hchr.
    apply chr_results_Ok, shared_exon_nonempty.
    by apply (proj1 (elem_of_unique _ _)).
Qed.

Lemma bind_nil_Forall {A B} (f : A → list B) (l : list A) :
  l ≫= f = [] ↔ Forall (λ x, f x = []) l.
Proof.
  induction l as [|x l IH]; [by split; [constructor|]|].
  rewrite bind_cons, Forall_cons. split.
  - intros [Hx Hl]%app_eq_nil. split; [done|]. by apply IH.
  - intros [-> Hl]. by apply IH.
Qed.

Lemma window_result_nil bam_with_chr exon_with_chr i :
  window_result bam_with_chr exon_with_chr i = [] ↔
  filter (in_window i (i + 225000)) bam_with_chr = []
  ∨ filter (in_window i (i + 225000)) exon_with_chr = [].
Proof.
  unfold window_result. case_decide as Hne.
  - split; [done|]. tauto.
  - split; [|done]. intros _.
    destruct (filter _ bam_with_chr); [by left|].
    destruct (filter _ exon_with_chr); [by right|].
    exfalso. apply Hne. done.
Qed.

Lemma elem_of_cells bam_df exon_df chr i :
  (chr, i) ∈ cells bam_df exon_df ↔
  chr ∈ unique (Bam.chr <$> shared_bam bam_df exon_df)
  ∧ i ∈ window_starts
          (filter (λ e, Exon.chr e = chr) (shared_exon bam_df exon_df)).
Proof.
  unfold cells. rewrite list_elem_of_bind. split.
  - intros (c & Hin & Hc). apply list_elem_of_bind in Hin as (j & Hin & Hj).
    apply list_elem_of_singleton in Hin as [= -> ->]. done.
  - intros [Hc Hi]. exists chr. split; [|done].
    apply list_elem_of_bind. exists i. split; [|done].
    by apply list_elem_of_singleton.
Qed.

(** [results] is empty exactly when no visited cell holds both a read and
    an exon. *)
Lemma bamtranscript_results_nil bam_df exon_df :
  bamtranscript_results bam_df exon_df = Ok [] ↔
  Forall (λ cell, cell_reads bam_df exon_df cell = []
                  ∨ cell_exons bam_df exon_df cell = [])
         (cells bam_df exon_df).
Proof.
  rewrite bamtranscript_results_Ok, Forall_forall.
  split.
  - intros [= Hnil] [chr i] [Hchr Hi]%elem_of_cells.
    apply join_nil, Forall_fmap, Forall_forall with (x := chr) in Hnil;
      [|done].
    simpl in Hnil. apply bind_nil_Forall, Forall_forall with (x := i) in Hnil;
      [|done].
    by apply window_result_nil in Hnil.
  - intros Hcells. f_equal. apply join_nil, Forall_fmap, Forall_forall.
    intros chr Hchr. simpl. apply bind_nil_Forall, Forall_forall.
    intros i Hi. apply window_result_nil.
    apply (Hcells (chr, i)), elem_of_cells. done.
Qed.

(** C10.  When none of the cells (chromosome, window) that
    [bamtranscript] visits holds both a read and an exon, [results] is
    empty when the loops end, [pl.from_dicts] raises on it, and
    [bamtranscript] returns no table. *)
Theorem bamtranscript_no_cell_raises bam_df exon_df :
  Forall (λ cell, cell_reads bam_df exon_df cell = []
                  ∨ cell_exons bam_df exon_df cell = [])
         (cells bam_df exon_df) →
  bamtranscript bam_df exon_df = Err NoDataError.
Proof.
  intros Hcells%bamtranscript_results_nil.
  unfold bamtranscript. rewrite Hcells. reflexivity.
Qed.

(** The read across the boundary of the first window: neither of the two
    cells has both a read and an exon, and no table is returned. *)
Lemma bamtranscript_no_cell_raises_witness :
  cells [boundary_read] boundary_exons = [("chr1", 0); ("chr1", 225000)]
  ∧ bamtranscript [boundary_read] boundary_exons = Err NoDataError.
Proof.
  split; [reflexivity|].
  apply (bamtranscript_no_cell_raises [boundary_read] boundary_exons).
  change (cells [boundary_read] boundary_exons)
    with [("chr1", 0); ("chr1", 225000)].
  repeat (constructor; [left; reflexivity|]). constructor.
Defined.

(** The converse: the only exception of [bamtranscript] is that one. *)
Lemma bamtranscript_Err_inv bam_df exon_df e :
  bamtranscript bam_df exon_df = Err e →
  e = NoDataError
  ∧ Forall (λ cell, cell_reads bam_df exon_df cell = []
                    ∨ cell_exons bam_df exon_df cell = [])
           (cells bam_df exon_df).
Proof.
  unfold bamtranscript. intros Herr.
  rewrite <-bamtranscript_results_nil.
  rewrite bamtranscript_results_Ok in *. cbn in Herr.
  destruct (mjoin _) as [|w ws]; [|done].
  by injection Herr as <-.
Qed.

(** ** CDS-relative coordinates *)

Section dict_zip.
Context `{Countable K} {V : Type}.

Lemma zip_fmap_same {A} (f : A → K) (g : A → V) (l : list A) :
  zip (f <$> l) (g <$> l) = (λ x, (f x, g x)) <$> l.
Proof. induction l as [|x l IH]; [done|]. cbn. by rewrite IH. Qed.



(** The value of a key is that of its last pair. *)
Lemma dict_zip_lookup {A} (f : A → K) (g : A → V) (l : list A) k :
  dict_zip (f <$> l) (g <$> l) !! k
    = g <$> last (filter (λ x, f x = k) l).
Proof.
  unfold dict_zip. rewrite zip_fmap_same.
  induction l as [|x l IH] using rev_ind; [done|].
  rewrite fmap_app, foldl_app, filter_app. simpl.
  rewrite filter_cons, filter_nil.
  destruct (decide (f x = k)) as [<-|Hne].
  - by rewrite lookup_insert_eq, last_snoc.
  - by rewrite lookup_insert_ne, app_nil_r.
Qed.
End dict_zip.






(** ** Columns of the translator's result *)

Lemma elem_of_exclude names columns c :
  c ∈ exclude names columns ↔ c ∈ columns ∧ c ∉ names.
Proof. unfold exclude. rewrite list_elem_of_filter. tauto. Qed.

Lemma elem_of_with_column name columns c :
  c ∈ with_column name columns ↔ c ∈ columns ∨ c = name.
Proof.
  unfold with_column. case_decide as Hin.
  - split; [tauto|]. intros [?| ->]; done.
  - rewrite elem_of_app, list_elem_of_singleton. tauto.
Qed.

(** C9, as stated, fails: the columns of the frame [bamrelativetocds]
    returns for a frame of projected reads are not the four columns
    [bamcds_start], [length], [count], [chr]; [start], [stop] and
    [tran_id] are among them. *)
Lemma bamrelativetocds_keeps_genomic_columns :
  ¬ (bamrelativetocds_columns Tran.columns
       ≡ₚ ["bamcds_start"; "length"; "count"; "chr"])
  ∧ "start" ∈ bamrelativetocds_columns Tran.columns
  ∧ "stop" ∈ bamrelativetocds_columns Tran.columns
  ∧ "tran_id" ∈ bamrelativetocds_columns Tran.columns.
Proof.
  split; [|compute_done].
  intros Hperm%Permutation_length. vm_compute in Hperm. discriminate.
Qed.

(** C9, amended.  [bamrelativetocds] drops [tran_start_bam] and
    [tran_stop_bam] and nothing else: on the columns of the frame that
    [get_bam_tran] builds it returns [count], [chr], [start], [stop],
    [length], [tran_id] and [bamcds_start]; on any frame a column is kept
    exactly when it is [bamcds_start] or a column of the input other than
    [tran_start_bam], [tran_stop_bam] and [shared]; the values of the kept
    columns are those of the input row; and [asitecalc], which reads
    [start], is the one that drops [start], [stop], [length], [tran_id]
    and [bamcds_start]. *)
Theorem bamrelativetocds_columns_kept :
  get_bam_tran_columns Bam.columns Exon.columns = Tran.columns
  ∧ bamrelativetocds_columns Tran.columns
    = ["count"; "chr"; "start"; "stop"; "length"; "tran_id"; "bamcds_start"]
  ∧ (∀ bamdf c,
       c ∈ bamrelativetocds_columns bamdf ↔
       (c ∈ bamdf ∨ c = "bamcds_start")
       ∧ c ∉ ["shared"; "tran_start_bam"; "tran_stop_bam"])
  ∧ (∀ start_dict x,
       match relative_row start_dict x with
       | Ok y =>
           BamCds.count y = Tran.count x ∧ BamCds.chr y = Tran.chr x
           ∧ BamCds.start y = Tran.start x ∧ BamCds.stop y = Tran.stop x
           ∧ BamCds.length y = Tran.length x
           ∧ BamCds.tran_id y = Tran.tran_id x
       | Err e => start_dict !! Tran.tran_id x = None
       end)
  ∧ asite_group_columns (bamrelativetocds_columns Tran.columns)
    = ["count"; "chr"; "A-site"].
Proof.
  split; [reflexivity|]. split; [reflexivity|].
  split; [|split; [|reflexivity]].
  - intros bamdf c. unfold bamrelativetocds_columns.
    rewrite elem_of_exclude, elem_of_with_column, elem_of_exclude,
      elem_of_with_column.
    rewrite !not_elem_of_cons.
    pose proof (not_elem_of_nil c).
    destruct (decide (c = "bamcds_start")) as [->|]; [|tauto].
    split; [|tauto]. intros _. repeat split; (done || by right).
  - intros start_dict x. unfold relative_row, subscript.
    destruct (start_dict !! Tran.tran_id x); cbn; done.
Qed.

(** ** A-site aggregation *)

Lemma sum_list_cons x l : sum_list (x :: l) = x + sum_list l.
Proof. reflexivity. Qed.

Lemma sum_list_app l1 l2 : sum_list (l1 ++ l2) = sum_list l1 + sum_list l2.
Proof. induction l1 as [|x l1 IH]; simpl; lia. Qed.

#[global] Instance sum_list_Permutation : Proper ((≡ₚ) ==> (=)) sum_list.
Proof. induction 1; simpl; lia. Qed.

Lemma filter_ext_elem_of {A} (P Q : A → Prop)
    `{∀ x, Decision (P x)} `{∀ x, Decision (Q x)} (l : list A) :
  Forall (λ x, P x ↔ Q x) l → filter P l = filter Q l.
Proof.
  induction 1 as [|x l HPQ _ IH]; [done|].
  rewrite !filter_cons, IH.
  destruct (decide (P x)), (decide (Q x)); tauto.
Qed.

(** *** Grouping *)

Section group_by_sum.
Context `{EqDecision K}.
Implicit Types (k : K) (n : Z) (groups rows : list (K * Z)).

Lemma count_of_app k rows1 rows2 :
  count_of k (rows1 ++ rows2) = count_of k rows1 + count_of k rows2.
Proof. unfold count_of. by rewrite filter_app, fmap_app, sum_list_app. Qed.

Lemma count_of_cons k kn rows :
  count_of k (kn :: rows)
    = (if decide (kn.1 = k) then kn.2 else 0) + count_of k rows.
Proof. unfold count_of. rewrite filter_cons. by case_decide. Qed.

Lemma count_of_not_elem_of k rows : k ∉ rows.*1 → count_of k rows = 0.
Proof.
  induction rows as [|kn rows IH]; [done|].
  rewrite fmap_cons, not_elem_of_cons, count_of_cons. intros [Hne Hk].
  rewrite decide_False by done. rewrite IH by done. done.
Qed.

Lemma count_of_Permutation k rows1 rows2 :
  rows1 ≡ₚ rows2 → count_of k rows1 = count_of k rows2.
Proof. unfold count_of. by intros ->. Qed.

Lemma add_count_exact_keys k n groups :
  (add_count_exact k n groups).*1
    = if decide (k ∈ groups.*1) then groups.*1 else groups.*1 ++ [k].
Proof.
  induction groups as [|[k' n'] groups IH].
  - by rewrite decide_False by apply not_elem_of_nil.
  - cbn [add_count_exact]. destruct (decide (k' = k)) as [->|Hne].
    + rewrite !fmap_cons. cbn [fst]. by rewrite decide_True by left.
    + rewrite !fmap_cons, IH. cbn [fst].
      destruct (decide (k ∈ groups.*1)) as [Hin|Hin].
      * by rewrite decide_True by by right.
      * rewrite decide_False; [done|].
        rewrite not_elem_of_cons. split; [congruence|done].
Qed.

Lemma add_count_exact_count_of k n groups k' :
  count_of k' (add_count_exact k n groups)
    = count_of k' groups + (if decide (k = k') then n else 0).
Proof.
  induction groups as [|[k1 n1] groups IH]; simpl.
  - rewrite count_of_cons. simpl. unfold count_of. simpl. lia.
  - destruct (decide (k1 = k)) as [->|Hne].
    + rewrite !count_of_cons. simpl. case_decide; lia.
    + rewrite !count_of_cons, IH. lia.
Qed.

Lemma add_count_exact_total k n groups :
  sum_list (add_count_exact k n groups).*2 = sum_list groups.*2 + n.
Proof.
  induction groups as [|[k1 n1] groups IH]; [simpl; lia|].
  cbn [add_count_exact]. case_decide; rewrite !fmap_cons, !sum_list_cons;
    [|rewrite IH]; simpl; lia.
Qed.

Lemma group_by_sum_exact_snoc rows kn :
  group_by_sum_exact (rows ++ [kn])
    = add_count_exact kn.1 kn.2 (group_by_sum_exact rows).
Proof. unfold group_by_sum_exact. by rewrite foldl_app. Qed.

Lemma group_by_sum_exact_keys rows k :
  k ∈ (group_by_sum_exact rows).*1 ↔ k ∈ rows.*1.
Proof.
  induction rows as [|kn rows IH] using rev_ind; [done|].
  rewrite group_by_sum_exact_snoc, add_count_exact_keys, fmap_app, elem_of_app.
  simpl. rewrite list_elem_of_singleton.
  case_decide as Hin; rewrite ?elem_of_app, ?list_elem_of_singleton, IH.
  - split; [tauto|]. intros [?| ->]; [done|]. by apply IH.
  - done.
Qed.

Lemma group_by_sum_exact_NoDup rows : NoDup (group_by_sum_exact rows).*1.
Proof.
  induction rows as [|kn rows IH] using rev_ind; [constructor|].
  rewrite group_by_sum_exact_snoc, add_count_exact_keys.
  case_decide as Hin; [done|].
  apply NoDup_app. split; [done|]. split; [|apply NoDup_singleton].
  intros k Hk ->%list_elem_of_singleton. done.
Qed.

Lemma group_by_sum_exact_count_of rows k :
  count_of k (group_by_sum_exact rows) = count_of k rows.
Proof.
  induction rows as [|kn rows IH] using rev_ind; [done|].
  rewrite group_by_sum_exact_snoc, add_count_exact_count_of, count_of_app, IH.
  rewrite count_of_cons. unfold count_of at 3. simpl. lia.
Qed.

Lemma group_by_sum_exact_total rows :
  sum_list (group_by_sum_exact rows).*2 = sum_list rows.*2.
Proof.
  induction rows as [|kn rows IH] using rev_ind; [done|].
  rewrite group_by_sum_exact_snoc, add_count_exact_total, fmap_app, sum_list_app, IH.
  simpl. lia.
Qed.

(** In a list with distinct keys the group of a key is its one row. *)
Lemma NoDup_count_of groups k n :
  NoDup groups.*1 → (k, n) ∈ groups → count_of k groups = n.
Proof.
  induction groups as [|[k1 n1] groups IH]; [by intros _ ?%elem_of_nil|].
  rewrite fmap_cons, NoDup_cons, elem_of_cons, count_of_cons. simpl.
  intros [Hk1 Hnd] [[= <- <-]|Hin].
  - rewrite decide_True by done. rewrite count_of_not_elem_of by done. lia.
  - rewrite decide_False, IH by (done || intros ->;
      apply Hk1, list_elem_of_fmap; by exists (k, n)). lia.
Qed.

(** Every group of the result carries a key of the input with the sum
    of the counts of that key, and every key of the input has a group. *)
Lemma elem_of_group_by_sum_exact rows k n :
  (k, n) ∈ group_by_sum_exact rows ↔ k ∈ rows.*1 ∧ n = count_of k rows.
Proof.
  split.
  - intros Hin. split.
    + apply group_by_sum_exact_keys, list_elem_of_fmap. by exists (k, n).
    + rewrite <-group_by_sum_exact_count_of. symmetry.
      by apply NoDup_count_of; [apply group_by_sum_exact_NoDup|].
  - intros [Hk ->].
    apply group_by_sum_exact_keys, list_elem_of_fmap in Hk as ([k' n'] & -> & Hin).
    simpl. rewrite <-group_by_sum_exact_count_of.
    by rewrite (NoDup_count_of _ k' n');
      [|apply group_by_sum_exact_NoDup|].
Qed.
(** The sums of the column are those, wrapped. *)
Lemma add_count_wrap k n groups :
  add_count k n (prod_map id wrap64 <$> groups)
  = prod_map id wrap64 <$> add_count_exact k n groups.
Proof.
  induction groups as [|[k' n'] groups IH]; [done|].
  cbn [add_count add_count_exact fmap list_fmap prod_map fst snd id].
  unfold id at 1 2. case_decide.
  - cbn. unfold prod_map. cbn. by rewrite wrap64_add_l.
  - cbn [fmap list_fmap]. f_equal. apply IH.
Qed.

Lemma group_by_sum_wrap rows :
  group_by_sum rows = prod_map id wrap64 <$> group_by_sum_exact rows.
Proof.
  induction rows as [|kn rows IH] using rev_ind; [done|].
  rewrite group_by_sum_exact_snoc, <-add_count_wrap, <-IH.
  unfold group_by_sum. by rewrite foldl_app.
Qed.

Lemma group_by_sum_fst rows :
  (group_by_sum rows).*1 = (group_by_sum_exact rows).*1.
Proof.
  rewrite group_by_sum_wrap, <-list_fmap_compose.
  apply list_fmap_ext. by intros i [k n] _.
Qed.

Lemma group_by_sum_keys rows k :
  k ∈ (group_by_sum rows).*1 ↔ k ∈ rows.*1.
Proof. rewrite group_by_sum_fst. apply group_by_sum_exact_keys. Qed.

Lemma group_by_sum_NoDup rows : NoDup (group_by_sum rows).*1.
Proof. rewrite group_by_sum_fst. apply group_by_sum_exact_NoDup. Qed.

(** Every group of the result carries a key of the input with the
    wrapped sum of the counts of that key, and every key of the input has
    a group. *)
Lemma elem_of_group_by_sum rows k n :
  (k, n) ∈ group_by_sum rows ↔ k ∈ rows.*1 ∧ n = wrap64 (count_of k rows).
Proof.
  rewrite group_by_sum_wrap, list_elem_of_fmap. split.
  - intros ([k' n'] & [= -> ->] & Hin).
    apply elem_of_group_by_sum_exact in Hin as [Hk ->]. done.
  - intros [Hk ->]. exists (k, count_of k rows). split; [done|].
    by apply elem_of_group_by_sum_exact.
Qed.

(** The sum of one key lies between 0 and the sum of all, when no count
    is negative. *)
Lemma count_of_bounds k rows :
  Forall (λ kn, 0 ≤ kn.2) rows →
  0 ≤ count_of k rows ≤ sum_list rows.*2.
Proof.
  induction 1 as [|[k' n'] rows Hn _ IH]; [done|].
  rewrite count_of_cons, fmap_cons, sum_list_cons. simpl in *.
  case_decide; lia.
Qed.

(** Nothing wraps when the counts are not negative and their sum fits. *)
Lemma group_by_sum_small rows :
  Forall (λ kn, 0 ≤ kn.2) rows →
  sum_list rows.*2 < 9223372036854775808 →
  group_by_sum rows = group_by_sum_exact rows.
Proof.
  intros Hpos Hsum. rewrite group_by_sum_wrap.
  rewrite <-(list_fmap_id (group_by_sum_exact rows)) at 2.
  apply list_fmap_ext. intros i [k n] Hin%list_elem_of_lookup_2.
  apply elem_of_group_by_sum_exact in Hin as [_ ->].
  unfold prod_map, id. simpl. f_equal. apply wrap64_int64.
  pose proof (count_of_bounds k rows Hpos). unfold int64. lia.
Qed.
End group_by_sum.

(** *** The loop over [group_by("length")] visits every row once *)

Lemma filter_disjoint_app {A} (P Q : A → Prop)
    `{∀ x, Decision (P x)} `{∀ x, Decision (Q x)} (l : list A) :
  (∀ x, P x → Q x → False) →
  filter P l ++ filter Q l ≡ₚ filter (λ x, P x ∨ Q x) l.
Proof.
  intros Hdisj. induction l as [|x l IH]; [done|].
  rewrite !filter_cons.
  destruct (decide (P x)) as [HP|HP], (decide (Q x)) as [HQ|HQ].
  - destruct (Hdisj x HP HQ).
  - rewrite decide_True by tauto. simpl. by rewrite IH.
  - rewrite decide_True by tauto. rewrite <-Permutation_middle. by rewrite IH.
  - rewrite decide_False by tauto. done.
Qed.

Lemma bind_filter_keys `{EqDecision K} {A} (key : A → K) (keys : list K)
    (l : list A) :
  NoDup keys →
  keys ≫= (λ v, filter (λ r, key r = v) l)
    ≡ₚ filter (λ r, key r ∈ keys) l.
Proof.
  induction 1 as [|v keys Hv _ IH].
  - simpl. induction l as [|x l IHl]; [done|].
    rewrite filter_cons, decide_False by apply not_elem_of_nil. done.
  - rewrite bind_cons, IH, filter_disjoint_app.
    + erewrite list_filter_iff; [done|].
      intros r. simpl. rewrite elem_of_cons. done.
    + intros r <- Hin. done.
Qed.

Lemma group_by_partition `{EqDecision K} {A} (key : A → K) (l : list A) :
  unique (key <$> l) ≫= (λ v, filter (λ r, key r = v) l) ≡ₚ l.
Proof.
  rewrite bind_filter_keys by apply NoDup_unique.
  rewrite (filter_ext_elem_of _ (λ _, True)).
  - induction l as [|x l IH]; [done|].
    rewrite filter_cons, decide_True by done. by rewrite IH.
  - apply Forall_forall. intros r Hr. split; [done|]. intros _.
    apply elem_of_unique, list_elem_of_fmap. by exists r.
Qed.

Lemma fmap_bind_list {A B C} (g : B → C) (f : A → list B) (l : list A) :
  g <$> (l ≫= f) = l ≫= (λ x, g <$> f x).
Proof.
  induction l as [|x l IH]; [done|].
  by rewrite !bind_cons, fmap_app, IH.
Qed.

Lemma join_fmap_bind {A B} (f : A → list B) (l : list A) :
  mjoin (f <$> l) = l ≫= f.
Proof. by rewrite list_join_bind, list_fmap_bind. Qed.

(** No cell with a row is turned into a row of nulls: on such cells
    [explode] is the concatenation. *)
Lemma explode_concat {A} (cells : list (list A)) :
  Forall (λ c, c ≠ []) cells → explode cells = Some <$> mjoin cells.
Proof.
  unfold explode. induction 1 as [|c cells Hc _ IH]; [done|].
  rewrite bind_cons, IH. simpl. rewrite fmap_app.
  by destruct c.
Qed.

(** *** The order of the result *)

#[global] Instance bed_le_total : Total bed_le.
Proof.
  intros r1 r2. unfold bed_le.
  destruct (decide (Bed.chr r1 = Bed.chr r2)) as [Heq|Hne].
  - rewrite Heq.
    destruct (Z.le_ge_cases (Bed.A_site r1) (Bed.A_site r2));
      [left|right]; split; done.
  - destruct (total String.le (Bed.chr r1) (Bed.chr r2));
      [left|right]; split; congruence.
Qed.

#[global] Instance bed_le_trans : Transitive bed_le.
Proof.
  intros r1 r2 r3 [Hc12 Ha12] [Hc23 Ha23]. split; [by etrans|].
  intros Heq. rewrite <-Heq in Hc23.
  assert (Bed.chr r1 = Bed.chr r2) as H12 by by apply (anti_symm String.le).
  etrans; [by apply Ha12|]. apply Ha23. congruence.
Qed.

(** *** [asitecalc], loop by loop *)

Lemma asite_group_Ok df offsets value :
  is_Some (offsets !! value) →
  asite_group df offsets value
    = Ok (a_site_row offsets <$> filter (λ r, BamCds.length r = value) df).
Proof.
  intros [offset Hoff]. unfold asite_group, subscript. rewrite Hoff. cbn.
  f_equal. apply list_fmap_ext.
  intros i r [Hr Hin]%list_elem_of_lookup_2%list_elem_of_filter.
  unfold a_site_row. by rewrite Hr, Hoff.
Qed.

(** The cells of [df_asite] are not empty, so [explode] makes no row of
    nulls of them. *)
Lemma asite_cells_explode df offsets :
  let cells :=
    (λ value, a_site_row offsets
                <$> filter (λ r, BamCds.length r = value) df)
      <$> unique (BamCds.length <$> df) in
  explode cells = Some <$> mjoin cells.
Proof.
  intros cells. apply explode_concat, Forall_fmap, Forall_forall.
  intros value Hv. simpl.
  apply (proj1 (elem_of_unique _ _)), list_elem_of_fmap in Hv
    as (r & -> & Hr).
  intros Hnil%fmap_nil_inv.
  assert (r ∈ filter (λ r', BamCds.length r' = BamCds.length r) df) as Hin
    by by apply list_elem_of_filter.
  rewrite Hnil in Hin. by apply elem_of_nil in Hin.
Qed.

(** The frame [df_asite] after [explode], up to the order of its rows. *)
Lemma asite_rows_Permutation df offsets :
  mjoin ((λ value, a_site_row offsets
                     <$> filter (λ r, BamCds.length r = value) df)
           <$> unique (BamCds.length <$> df))
    ≡ₚ a_site_row offsets <$> df.
Proof.
  rewrite join_fmap_bind, <-fmap_bind_list.
  by rewrite group_by_partition.
Qed.

Lemma asitecalc_Ok df offsets :
  df ≠ [] → covered offsets df →
  asitecalc df offsets =
    Ok (bed_of (mjoin ((λ value, a_site_row offsets
                          <$> filter (λ r, BamCds.length r = value) df)
                         <$> unique (BamCds.length <$> df)))).
Proof.
  intros Hne Hcov. unfold asitecalc.
  rewrite (mapM_Ok_fmap _ (λ value, a_site_row offsets
             <$> filter (λ r, BamCds.length r = value) df)).
  - cbn. destruct (unique (BamCds.length <$> df)) as [|v vs] eqn:Hu.
    + apply unique_nil, fmap_nil_inv in Hu. done.
    + reflexivity.
  - apply Forall_forall. intros value Hv. apply asite_group_Ok.
    apply (proj1 (elem_of_unique _ _)), list_elem_of_fmap in Hv
      as (r & -> & Hr).
    unfold covered in Hcov. rewrite Forall_forall in Hcov. by apply Hcov.
Qed.

(** A table is returned only when every length has its offset. *)
Lemma asitecalc_y_covered df offsets y :
  mapM (asite_group df offsets) (unique (BamCds.length <$> df)) = Ok y →
  covered offsets df.
Proof.
  intros Hy%mapM_Ok_inv. apply Forall_forall. intros r Hr.
  assert (BamCds.length r ∈ unique (BamCds.length <$> df)) as Hin.
  { apply elem_of_unique, list_elem_of_fmap. by exists r. }
  apply list_elem_of_lookup in Hin as [i Hi].
  destruct (Forall2_lookup_l _ _ _ _ _ Hy Hi) as (b & _ & Hb).
  unfold asite_group, subscript in Hb.
  destruct (offsets !! BamCds.length r); [done|discriminate].
Qed.

(** [asitecalc] raises on the empty table and on a length without
    offset, and only then. *)
Lemma asitecalc_cases df offsets :
  (df ≠ [] ∧ covered offsets df
   ∧ asitecalc df offsets =
       Ok (bed_of (mjoin ((λ value, a_site_row offsets
                             <$> filter (λ r, BamCds.length r = value) df)
                            <$> unique (BamCds.length <$> df)))))
  ∨ (df = [] ∧ asitecalc df offsets = Err NoDataError)
  ∨ (Exists (λ r, offsets !! BamCds.length r = None) df
     ∧ asitecalc df offsets = Err KeyError).
Proof.
  destruct df as [|r0 df]; [right; left; done|].
  destruct (decide (covered offsets (r0 :: df))) as [Hcov|Hcov].
  - left. split; [done|]. split; [done|]. by apply asitecalc_Ok.
  - right. right. unfold asitecalc.
    destruct (mapM _ _) as [y|e] eqn:Hy.
    + destruct Hcov. by eapply asitecalc_y_covered.
    + apply mapM_Err, Exists_exists in Hy as (value & Hv & Hy).
      apply (proj1 (elem_of_unique _ _)), list_elem_of_fmap in Hv
        as (r & -> & Hr).
      unfold asite_group, subscript in Hy.
      destruct (offsets !! BamCds.length r) eqn:Hoff; [discriminate|].
      injection Hy as <-. split; [|done].
      apply Exists_exists. by exists r.
Qed.

(** *** The rows of the result *)

Lemma a_site_of_key offsets r k :
  is_Some (offsets !! BamCds.length r) →
  a_site_of offsets r = Some k ↔ a_site_key offsets r = k.
Proof.
  intros [offset Hoff]. unfold a_site_of, a_site_key. rewrite Hoff. cbn.
  split; congruence.
Qed.

Lemma count_of_fmap `{EqDecision K} {A} (key : A → K) (cnt : A → Z)
    (l : list A) k :
  count_of k ((λ r, (key r, cnt r)) <$> l)
    = sum_list (cnt <$> filter (λ r, key r = k) l).
Proof.
  induction l as [|r l IH]; [done|].
  rewrite fmap_cons, count_of_cons, filter_cons, IH. simpl.
  case_decide; [rewrite fmap_cons, sum_list_cons|]; lia.
Qed.

Lemma bed_of_Permutation df_asite :
  bed_of df_asite
    ≡ₚ (λ g, Bed.mk g.1.1 g.1.2 (wrap64 (g.1.2 + 1)) g.2)
         <$> group_by_sum ((λ x, ((x.1.1, x.1.2), x.2)) <$> df_asite).
Proof. apply merge_sort_Permutation. Qed.

Lemma bed_of_sorted df_asite : StronglySorted bed_le (bed_of df_asite).
Proof. apply StronglySorted_merge_sort; apply _. Qed.

Lemma bed_of_keys df_asite :
  bed_key <$> bed_of df_asite
    ≡ₚ (group_by_sum ((λ x, ((x.1.1, x.1.2), x.2)) <$> df_asite)).*1.
Proof.
  rewrite bed_of_Permutation, <-list_fmap_compose.
  erewrite list_fmap_ext; [done|]. by intros i [[c a] n] _.
Qed.

Lemma bed_of_total df_asite :
  Forall (λ x, 0 ≤ x.2) df_asite →
  sum_list df_asite.*2 < 9223372036854775808 →
  sum_list (Bed.count <$> bed_of df_asite) = sum_list df_asite.*2.
Proof.
  intros Hpos Hsum.
  assert (((λ x : string * Z * Z, ((x.1.1, x.1.2), x.2)) <$> df_asite).*2
          = df_asite.*2) as Hsnd by by rewrite <-list_fmap_compose.
  rewrite bed_of_Permutation, <-list_fmap_compose.
  erewrite list_fmap_ext; [|by intros i g _].
  rewrite group_by_sum_small.
  - rewrite (group_by_sum_exact_total (K := string * Z)). by rewrite Hsnd.
  - by apply Forall_fmap.
  - by rewrite Hsnd.
Qed.

Lemma elem_of_bed_of df_asite b :
  b ∈ bed_of df_asite ↔
  bed_key b ∈ ((λ x, ((x.1.1, x.1.2), x.2)) <$> df_asite).*1
  ∧ Bed.stop b = wrap64 (Bed.A_site b + 1)
  ∧ Bed.count b
    = wrap64 (count_of (bed_key b)
                ((λ x, ((x.1.1, x.1.2), x.2)) <$> df_asite)).
Proof.
  rewrite bed_of_Permutation, list_elem_of_fmap. split.
  - intros ([[c a] n] & -> & Hg). simpl.
    apply elem_of_group_by_sum in Hg as [Hk ->]. done.
  - intros (Hk & Hstop & Hcount). exists (bed_key b, Bed.count b). split.
    + destruct b as [c a s n]. simpl in *. by subst s.
    + apply elem_of_group_by_sum. done.
Qed.

(** The rows of [df_asite], keyed, are those of the input table. *)
Lemma keyed_rows_Permutation df offsets :
  (λ x : string * Z * Z, ((x.1.1, x.1.2), x.2))
    <$> mjoin ((λ value, a_site_row offsets
                           <$> filter (λ r, BamCds.length r = value) df)
                 <$> unique (BamCds.length <$> df))
  ≡ₚ (λ r, (a_site_key offsets r, BamCds.count r)) <$> df.
Proof. by rewrite asite_rows_Permutation, <-list_fmap_compose. Qed.

Lemma filter_a_site_of offsets df k :
  covered offsets df →
  filter (λ r, a_site_key offsets r = k) df
    = filter (λ r, a_site_of offsets r = Some k) df.
Proof.
  intros Hcov. apply filter_ext_elem_of.
  eapply Forall_impl; [exact Hcov|].
  intros r Hr. simpl. symmetry. by apply a_site_of_key.
Qed.

(** C6, as stated, fails: the two rows of [two_large_counts] are moved to
    the same position of chr1, their counts add up to [2^63], and the row
    returned for that position has the count [-2^63]. *)
Lemma asitecalc_count_wraps :
  asitecalc two_large_counts scenario_D_offsets
    = Ok [Bed.mk "chr1" 115 116 (-9223372036854775808)]
  ∧ sum_list (BamCds.count <$> two_large_counts) = 9223372036854775808.
Proof. split; vm_compute; reflexivity. Qed.

(** C6, amended.  When [asitecalc] returns a table, the table is sorted by
    chromosome (as a string) and then by A-site, no two of its rows have the
    same chromosome and A-site, every input row has the row of its
    (chromosome, A-site), and every row of the table has
    [stop = A-site + 1], is the (chromosome, A-site) of some input row and
    counts the sum of the counts of the input rows moved there; the
    A-site of an input row is [start + offset].  Each of these sums is
    that of a 64-bit column: it wraps around, and is the exact one
    whenever the exact one fits.  [asitecalc] returns no table only on the
    empty input or when a length has no offset.  Two reads on the same
    (chromosome, A-site) with counts 3 and 4 give one row of count 7. *)
Theorem asitecalc_one_row_per_a_site df offsets :
  match asitecalc df offsets with
  | Ok df_bed =>
      StronglySorted bed_le df_bed
      ∧ NoDup (bed_key <$> df_bed)
      ∧ Forall (λ r, ∃ b, b ∈ df_bed
                          ∧ a_site_of offsets r = Some (bed_key b)) df
      ∧ Forall (λ b,
           Bed.stop b = wrap64 (Bed.A_site b + 1)
           ∧ Exists (λ r, a_site_of offsets r = Some (bed_key b)) df
           ∧ Bed.count b
             = wrap64 (sum_list (BamCds.count <$>
                 filter (λ r, a_site_of offsets r = Some (bed_key b)) df)))
          df_bed
  | Err e =>
      df = [] ∨ Exists (λ r, offsets !! BamCds.length r = None) df
  end
  ∧ (∀ r, a_site_of offsets r
          = (λ offset, (BamCds.chr r, wrap64 (BamCds.start r + offset)))
              <$> offsets !! BamCds.length r)
  ∧ (∀ z, int64 (wrap64 z)
          ∧ (wrap64 z - z) `mod` 18446744073709551616 = 0
          ∧ (int64 z → wrap64 z = z))
  ∧ asitecalc scenario_D scenario_D_offsets = Ok [Bed.mk "chr1" 115 116 7].
Proof.
  split; [|split; [|split]];
    [|intros r; unfold a_site_of; by destruct (offsets !! _)
     |apply wrap64_spec|vm_compute; reflexivity].
  destruct (asitecalc_cases df offsets)
    as [(Hne & Hcov & ->)|[[-> ->]|[Hex ->]]]; [|by left|by right].
  split; [apply bed_of_sorted|].
  split; [rewrite bed_of_keys; apply group_by_sum_NoDup|].
  split.
  - apply Forall_forall. intros r Hr.
    pose proof Hcov as Hcov'. unfold covered in Hcov'.
    rewrite Forall_forall in Hcov'.
    exists (Bed.mk (BamCds.chr r) (a_site_key offsets r).2
              (wrap64 ((a_site_key offsets r).2 + 1))
              (wrap64 (count_of (a_site_key offsets r)
                 ((λ r, (a_site_key offsets r, BamCds.count r)) <$> df)))).
    split; [|by apply a_site_of_key; [apply Hcov'|]].
    apply elem_of_bed_of. unfold bed_key. simpl.
    split; [|split; [done|]].
    + rewrite keyed_rows_Permutation, <-list_fmap_compose.
      apply list_elem_of_fmap. by exists r.
    + by rewrite (count_of_Permutation _ _ _ (keyed_rows_Permutation _ _)).
  - apply Forall_forall. intros b (Hk & Hstop & Hcount)%elem_of_bed_of.
    split; [done|].
    rewrite keyed_rows_Permutation in Hk.
    rewrite (count_of_Permutation _ _ _ (keyed_rows_Permutation _ _)),
      count_of_fmap, filter_a_site_of in Hcount by done.
    split; [|done].
    rewrite <-list_fmap_compose in Hk.
    apply list_elem_of_fmap in Hk as (r & Hr & Hin).
    apply Exists_exists. exists r. split; [done|].
    unfold covered in Hcov. rewrite Forall_forall in Hcov.
    by apply a_site_of_key; [apply Hcov|].
Qed.

(** C8, as stated, fails: every length of [two_large_counts] has an
    offset, the counts of its rows add up to [2^63], and the one row
    returned counts [-2^63]. *)
Lemma asitecalc_loses_counts :
  covered scenario_D_offsets two_large_counts
  ∧ (∃ df_bed,
       asitecalc two_large_counts scenario_D_offsets = Ok df_bed
       ∧ sum_list (Bed.count <$> df_bed) = -9223372036854775808)
  ∧ sum_list (BamCds.count <$> two_large_counts) = 9223372036854775808.
Proof.
  split; [|split].
  - repeat constructor; eexists; vm_compute; reflexivity.
  - eexists. split; vm_compute; reflexivity.
  - vm_compute; reflexivity.
Qed.

(** C8, amended.  On a table whose every length has an offset, whose
    counts are not negative and add up to less than [2^63], the counts of
    the rows [asitecalc] returns add up to the counts of the input rows; it
    returns no table only when the input has no row at all, where
    [pl.from_dicts] raises. *)
Theorem asitecalc_conserves_counts df offsets :
  Forall (λ r, is_Some (offsets !! BamCds.length r)) df →
  Forall (λ r, 0 ≤ BamCds.count r) df →
  sum_list (BamCds.count <$> df) < 9223372036854775808 →
  match asitecalc df offsets with
  | Ok df_bed =>
      sum_list (Bed.count <$> df_bed) = sum_list (BamCds.count <$> df)
  | Err e => df = [] ∧ e = NoDataError
  end.
Proof.
  intros Hcov Hpos Hsum.
  destruct (asitecalc_cases df offsets)
    as [(Hne & _ & ->)|[[-> ->]|[Hex ->]]]; [|done|].
  - assert ((mjoin ((λ value, a_site_row offsets
                       <$> filter (λ r, BamCds.length r = value) df)
                    <$> unique (BamCds.length <$> df))).*2
            ≡ₚ BamCds.count <$> df) as Hcounts.
    { by rewrite asite_rows_Permutation, <-list_fmap_compose. }
    rewrite bed_of_total.
    + by rewrite Hcounts.
    + rewrite asite_rows_Permutation. apply Forall_fmap.
      eapply Forall_impl; [exact Hpos|]. done.
    + by rewrite Hcounts.
  - apply Exists_exists in Hex as (r & Hr & Hnone).
    rewrite Forall_forall in Hcov. destruct (Hcov r Hr) as [o Ho].
    congruence.
Qed.

(** On [five_reads] the four rows returned carry 2 + 7 + 2 + 2 = 13. *)
Lemma asitecalc_conserves_counts_witness :
  asitecalc five_reads scenario_D_offsets
    = Ok [Bed.mk "chr1" 25 26 2; Bed.mk "chr1" 115 116 7;
          Bed.mk "chr10" 25 26 2; Bed.mk "chr2" 25 26 2]
  ∧ match asitecalc five_reads scenario_D_offsets with
    | Ok df_bed =>
        sum_list (Bed.count <$> df_bed)
          = sum_list (BamCds.count <$> five_reads)
    | Err e => five_reads = [] ∧ e = NoDataError
    end.
Proof.
  split; [vm_compute; reflexivity|].
  apply (asitecalc_conserves_counts five_reads scenario_D_offsets).
  - repeat constructor; eexists; vm_compute; reflexivity.
  - repeat constructor; vm_compute; discriminate.
  - vm_compute. reflexivity.
Defined.


(** * Further properties of the code *)

(** ** [change_point_analysis] *)

Lemma cp_step_offset_dict offset_df st length :
  offset_dict (cp_step offset_df st length)
    = <[length := default 15 (max_shift_position
                                (cp_step offset_df st length))]>
        (offset_dict st).
Proof.
  unfold cp_step. rewrite scan_last.
  destruct (Qgtb _ _); simpl; by destruct (max_shift_position st).
Qed.

Lemma cp_foldl_is_Some offset_df order st length :
  is_Some (offset_dict (foldl (cp_step offset_df) st order) !! length) ↔
  is_Some (offset_dict st !! length) ∨ length ∈ order.
Proof.
  revert st. induction order as [|l order IH]; intros st; simpl.
  - rewrite elem_of_nil. tauto.
  - rewrite IH, cp_step_offset_dict, lookup_insert_is_Some', elem_of_cons.
    intuition congruence.
Qed.

Lemma cp_foldl_not_elem_of offset_df order st length :
  length ∉ order →
  offset_dict (foldl (cp_step offset_df) st order) !! length
    = offset_dict st !! length.
Proof.
  revert st. induction order as [|l order IH]; intros st Hnot; [done|].
  apply not_elem_of_cons in Hnot as [Hne Hnot]. simpl.
  rewrite IH, cp_step_offset_dict, lookup_insert_ne by done. done.
Qed.

Lemma change_point_analysis_is_Some offset_df length :
  is_Some (change_point_analysis offset_df !! length) ↔
  length ∈ Hist.length <$> offset_df.
Proof.
  unfold change_point_analysis, change_point_analysis_in.
  rewrite cp_foldl_is_Some, elem_of_unique_int. simpl.
  rewrite lookup_empty. split; [|by right].
  intros [[? [=]]|?]; done.
Qed.

(** X1.  The keys of the dict [change_point_analysis] returns are the
    lengths that occur in [offset_df]: every length gets an offset and no
    other key is written. *)
Theorem change_point_analysis_entries offset_df :
  dom (change_point_analysis offset_df)
    = list_to_set (Hist.length <$> offset_df).
Proof.
  apply set_eq. intros length.
  by rewrite elem_of_dom, elem_of_list_to_set,
    change_point_analysis_is_Some.
Qed.

(** The state after a prefix of the lengths: the position is recorded
    exactly when a length of the prefix has a peak, and until then
    [max_shift] is still the initial 0. *)
Lemma cp_foldl_state offset_df order :
  let st := foldl (cp_step offset_df) cp_init order in
  if decide (Exists (peak offset_df) order)
  then max_shift_position st = Some 10
  else max_shift_position st = None ∧ max_shift st = 0%Q.
Proof.
  induction order as [|length order IH] using rev_ind.
  - cbn zeta. rewrite decide_False by by intros ?%Exists_nil. done.
  - cbn zeta in *. rewrite foldl_app. cbn [foldl].
    destruct (decide (Exists (peak offset_df) order)) as [Hex|Hex].
    + rewrite decide_True by (apply Exists_app; by left).
      by apply cp_step_after_peak.
    + destruct IH as [Hpos Hmax].
      generalize dependent (foldl (cp_step offset_df) cp_init order).
      intros st Hpos Hmax.
      unfold cp_step. rewrite scan_last, Hpos, Hmax, !counts_in_sort.
      destruct (Qgtb _ _) eqn:Hgt; simpl.
      * rewrite decide_True; [done|].
        apply Exists_app. right. apply Exists_cons. left.
        by apply Qgtb_shift in Hgt.
      * rewrite decide_False; [done|].
        intros [?|Hp%Exists_cons]%Exists_app; [done|].
        destruct Hp as [Hp|Hp%Exists_nil]; [|done].
        apply Qgtb_shift in Hp. congruence.
Qed.

(** The offset of a length, from the lengths that come before it in the
    ascending order of the visit. *)
Lemma change_point_analysis_at offset_df before length after :
  unique_int (Hist.length <$> offset_df) = before ++ length :: after →
  change_point_analysis offset_df !! length =
    Some (if decide (Exists (peak offset_df) (before ++ [length]))
          then 10 else 15).
Proof.
  intros Horder. unfold change_point_analysis, change_point_analysis_in.
  assert (length ∉ after) as Hnot.
  { pose proof (NoDup_unique_int (Hist.length <$> offset_df)) as Hnd.
    rewrite Horder in Hnd. apply NoDup_app in Hnd as (_ & _ & Hnd).
    by apply NoDup_cons in Hnd as [? _]. }
  rewrite Horder, (cons_middle length), app_assoc, foldl_app.
  rewrite cp_foldl_not_elem_of by done.
  pose proof (cp_foldl_state offset_df (before ++ [length])) as Hst.
  cbn zeta in Hst. rewrite foldl_snoc in Hst |- *.
  rewrite cp_step_offset_dict, lookup_insert_eq.
  destruct (decide _) as [Hex|Hex].
  - by rewrite Hst.
  - destruct Hst as [Hst _]. by rewrite Hst.
Qed.

(** In a table with one row for a position and a length, the count read
    at a position is the histogram of the specification. *)
Lemma count_at_histogram offset_df length j :
  NoDup ((λ r, (Hist.bamcds_start r, Hist.length r)) <$> offset_df) →
  count_at (filter (λ r, Hist.length r = length) offset_df) j
  = histogram offset_df length j.
Proof.
  intros Hnd. unfold count_at, histogram. rewrite list_filter_filter.
  rewrite (list_filter_iff _
             (λ r, Hist.length r = length ∧ Hist.bamcds_start r = j))
    by (intros r; tauto).
  induction offset_df as [|r offset_df IH]; [done|].
  rewrite fmap_cons in Hnd. apply NoDup_cons in Hnd as [Hr Hnd].
  rewrite filter_cons. case_decide as Hkey; [|by apply IH].
  assert (filter (λ r, Hist.length r = length ∧ Hist.bamcds_start r = j)
            offset_df = []) as ->.
  { destruct (filter _ offset_df) as [|r' l'] eqn:Hf; [done|].
    assert (r' ∈ filter
              (λ r, Hist.length r = length ∧ Hist.bamcds_start r = j)
              offset_df) as Hr' by (rewrite Hf; left).
    apply list_elem_of_filter in Hr' as [[Hl Hp] Hr'].
    destruct Hr. apply list_elem_of_fmap. exists r'. split; [|done].
    destruct Hkey as [-> ->]. by rewrite Hl, Hp. }
  simpl. lia.
Qed.

Lemma peak_hist_peak offset_df length :
  NoDup ((λ r, (Hist.bamcds_start r, Hist.length r)) <$> offset_df) →
  peak offset_df length ↔ hist_peak offset_df length.
Proof.
  intros Hnd. unfold peak, hist_peak, counts_in.
  assert (∀ l : list Z,
            count_at (filter (λ r, Hist.length r = length) offset_df) <$> l
            = histogram offset_df length <$> l) as Heq.
  { intros l. apply list_fmap_ext. intros _ j _.
    by apply count_at_histogram. }
  by rewrite !Heq.
Qed.

(** X2.  On a histogram, a table with one row for a position and a
    length, the offset of a length is 10 when that length or a shorter one
    of the table has a peak at the last candidate (the sums of its
    histogram over [[11, 14]] and over [[7, 10]] differ as floats), and 15
    otherwise: the lengths are visited in ascending order, and the
    position a length records stays for the longer ones. *)
Theorem change_point_analysis_closed_form offset_df length :
  NoDup ((λ r, (Hist.bamcds_start r, Hist.length r)) <$> offset_df) →
  length ∈ Hist.length <$> offset_df →
  change_point_analysis offset_df !! length =
    Some (if decide (Exists (λ r, Hist.length r ≤ length
                                  ∧ hist_peak offset_df (Hist.length r))
                            offset_df)
          then 10 else 15).
Proof.
  intros Hnd Hin.
  apply elem_of_unique_int, list_elem_of_split in Hin
    as (before & after & Horder).
  rewrite (change_point_analysis_at _ _ _ _ Horder).
  destruct (unique_int_split _ _ _ _ Horder) as [Hbefore Hafter].
  rewrite Forall_forall in Hbefore, Hafter.
  assert (Exists (peak offset_df) (before ++ [length])
          ↔ Exists (λ r, Hist.length r ≤ length
                         ∧ hist_peak offset_df (Hist.length r)) offset_df)
    as Hiff.
  { rewrite !Exists_exists. split.
    - intros (l & Hl & Hpeak).
      assert (l ∈ Hist.length <$> offset_df) as Hlen.
      { apply elem_of_unique_int. rewrite Horder, (cons_middle length),
          app_assoc. apply elem_of_app. by left. }
      apply list_elem_of_fmap in Hlen as (r & -> & Hr).
      exists r. split; [done|]. split; [|by apply peak_hist_peak].
      apply elem_of_app in Hl as [Hl|Hl%list_elem_of_singleton].
      + specialize (Hbefore _ Hl). lia.
      + lia.
    - intros (r & Hr & Hle & Hpeak). exists (Hist.length r).
      split; [|by apply peak_hist_peak].
      assert (Hist.length r ∈ before ++ length :: after) as Hl.
      { rewrite <-Horder. apply elem_of_unique_int, list_elem_of_fmap.
        by exists r. }
      rewrite elem_of_app, list_elem_of_singleton.
      apply elem_of_app in Hl as [Hl|Hl]; [by left|].
      apply elem_of_cons in Hl as [Hl|Hl]; [by right|].
      specialize (Hafter _ Hl). lia. }
  destruct (decide (Exists (peak offset_df) _)),
    (decide (Exists _ offset_df)); tauto.
Qed.

(** In [peak_28_flat_30] length 30 has no peak of its own; the shorter
    length 28 has one. *)
Lemma change_point_analysis_closed_form_witness :
  change_point_analysis peak_28_flat_30 !! 30 = Some 10.
Proof.
  rewrite (change_point_analysis_closed_form peak_28_flat_30 30).
  - vm_compute. reflexivity.
  - apply NoDup_ListNoDup. vm_compute. repeat constructor; simpl; intuition discriminate.
  - vm_compute. right. left.
Defined.

(** ** [get_bam_tran] and [bamtranscript] *)

(** X3.  When the coordinates are those of a genome (not negative, below
    [2^62]), the reads have [start <= stop] and an exon is as long on the
    transcript as on the chromosome, every row of [get_bam_tran] comes
    from an exon of the same chromosome and transcript that holds the
    read, its transcript interval lies within the transcript interval of
    that exon, as far from its start as the read is from the start of the
    exon, and is as long as the read. *)
Theorem get_bam_tran_within_exon bam_df exon_df :
  Forall (λ r, coordinate (Bam.start r) ∧ coordinate (Bam.stop r)
               ∧ Bam.start r ≤ Bam.stop r) bam_df →
  Forall (λ e, coordinate (Exon.start e) ∧ coordinate (Exon.stop e)
               ∧ coordinate (Exon.tran_start e)
               ∧ coordinate (Exon.tran_stop e)
               ∧ Exon.tran_stop e - Exon.tran_start e
                 = Exon.stop e - Exon.start e) exon_df →
  Forall (λ t, ∃ e,
            e ∈ exon_df
            ∧ Tran.chr t = Exon.chr e ∧ Tran.tran_id t = Exon.tran_id e
            ∧ Exon.start e ≤ Tran.start t ∧ Tran.stop t ≤ Exon.stop e
            ∧ Exon.tran_start e ≤ Tran.tran_start_bam t
            ∧ Tran.tran_start_bam t ≤ Tran.tran_stop_bam t
            ∧ Tran.tran_stop_bam t ≤ Exon.tran_stop e
            ∧ Tran.tran_start_bam t - Exon.tran_start e
              = Tran.start t - Exon.start e
            ∧ Tran.tran_stop_bam t - Tran.tran_start_bam t
              = Tran.stop t - Tran.start t)
         (get_bam_tran bam_df exon_df).
Proof.
  intros Hbam Hexon. apply Forall_forall. intros t Ht.
  apply elem_of_get_bam_tran in Ht
    as (r & e & Hr & He & Hchr & [Hstart Hstop] & ->).
  rewrite Forall_forall in Hbam. rewrite Forall_forall in Hexon.
  specialize (Hbam r Hr). specialize (Hexon e He).
  unfold coordinate in *. exists e. unfold projected. simpl.
  rewrite (wrap64_int64 (Bam.start r - Exon.start e)),
    (wrap64_int64 (Exon.stop e - Bam.stop r)) by (unfold int64; lia).
  rewrite !wrap64_int64 by (unfold int64; lia).
  repeat split; (done || lia).
Qed.

(** The read (chr1, 100, 130) in the exon (chr1, 90, 200) of tranA, which
    is [[0, 110]] on the transcript: the row is [[10, 40]]. *)
Lemma get_bam_tran_within_exon_witness :
  get_bam_tran [scenario_A_read] [scenario_A_exon]
    = [Tran.mk 1 "chr1" 100 130 30 "tranA" 10 40]
  ∧ Forall (λ t, ∃ e,
              e ∈ [scenario_A_exon]
              ∧ Tran.chr t = Exon.chr e ∧ Tran.tran_id t = Exon.tran_id e
              ∧ Exon.start e ≤ Tran.start t ∧ Tran.stop t ≤ Exon.stop e
              ∧ Exon.tran_start e ≤ Tran.tran_start_bam t
              ∧ Tran.tran_start_bam t ≤ Tran.tran_stop_bam t
              ∧ Tran.tran_stop_bam t ≤ Exon.tran_stop e
              ∧ Tran.tran_start_bam t - Exon.tran_start e
                = Tran.start t - Exon.start e
              ∧ Tran.tran_stop_bam t - Tran.tran_start_bam t
                = Tran.stop t - Tran.start t)
           (get_bam_tran [scenario_A_read] [scenario_A_exon]).
Proof.
  split; [vm_compute; reflexivity|].
  apply (get_bam_tran_within_exon [scenario_A_read] [scenario_A_exon]).
  - repeat constructor; vm_compute; intuition discriminate.
  - repeat constructor; vm_compute; intuition discriminate.
Defined.

Lemma foldl_min_spec x l :
  foldl Z.min x l ∈ x :: l ∧ Forall (λ y, foldl Z.min x l ≤ y) (x :: l).
Proof.
  revert x. induction l as [|y l IH]; intros x; simpl.
  - split; [by left|]. by repeat constructor.
  - destruct (IH (x `min` y)) as [Hin Hle]. split.
    + apply elem_of_cons in Hin as [Hin|Hin]; [|by do 2 right].
      rewrite Hin. destruct (Z.min_spec x y) as [[_ ->]|[_ ->]];
        [by left|right; by left].
    + apply Forall_cons in Hle as [Hxy Hle].
      repeat (apply Forall_cons; split); [lia..|done].
Qed.

Lemma foldl_max_spec x l :
  foldl Z.max x l ∈ x :: l ∧ Forall (λ y, y ≤ foldl Z.max x l) (x :: l).
Proof.
  revert x. induction l as [|y l IH]; intros x; simpl.
  - split; [by left|]. by repeat constructor.
  - destruct (IH (x `max` y)) as [Hin Hle]. split.
    + apply elem_of_cons in Hin as [Hin|Hin]; [|by do 2 right].
      rewrite Hin. destruct (Z.max_spec x y) as [[_ ->]|[_ ->]];
        [right; by left|by left].
    + apply Forall_cons in Hle as [Hxy Hle].
      repeat (apply Forall_cons; split); [lia..|done].
Qed.

Lemma elem_of_range_step lo hi i :
  i ∈ range_step lo hi 225000 ↔
  ∃ k, 0 ≤ k ∧ i = lo + k * 225000 ∧ i < hi.
Proof.
  unfold range_step. rewrite list_elem_of_fmap.
  pose proof (Z.div_mod (hi - lo + 225000 - 1) 225000 ltac:(done)) as Hdiv.
  pose proof (Z.mod_pos_bound (hi - lo + 225000 - 1) 225000 ltac:(done)).
  split.
  - intros (k & -> & Hk%elem_of_seqZ). exists k. lia.
  - intros (k & Hk & -> & Hlt). exists k. split; [done|].
    apply elem_of_seqZ. lia.
Qed.

(** X4.  The windows of a chromosome start at the least start of its
    exons and follow one another every 225000 positions, as long as the
    start of the window is below the greatest stop of its exons. *)
Theorem window_starts_from_least_start exon_with_chr i :
  i ∈ window_starts exon_with_chr ↔
  ∃ e_min e_max k,
    e_min ∈ exon_with_chr ∧ e_max ∈ exon_with_chr
    ∧ Forall (λ e, Exon.start e_min ≤ Exon.start e
                   ∧ Exon.stop e ≤ Exon.stop e_max) exon_with_chr
    ∧ 0 ≤ k ∧ i = Exon.start e_min + k * 225000 ∧ i < Exon.stop e_max.
Proof.
  unfold window_starts. destruct exon_with_chr as [|e0 es].
  { simpl. split; [by intros ?%elem_of_nil|].
    by intros (e & _ & _ & ?%elem_of_nil & _). }
  cbn [fmap list_fmap min_of max_of].
  rewrite elem_of_range_step.
  destruct (foldl_min_spec (Exon.start e0) (Exon.start <$> es))
    as [Hmin_in Hmin].
  destruct (foldl_max_spec (Exon.stop e0) (Exon.stop <$> es))
    as [Hmax_in Hmax].
  change (Exon.start e0 :: (Exon.start <$> es))
    with (Exon.start <$> e0 :: es) in *.
  change (Exon.stop e0 :: (Exon.stop <$> es))
    with (Exon.stop <$> e0 :: es) in *.
  apply list_elem_of_fmap in Hmin_in as (e_min & Hmin_eq & Hmin_in).
  apply list_elem_of_fmap in Hmax_in as (e_max & Hmax_eq & Hmax_in).
  rewrite Forall_fmap in Hmin, Hmax. rewrite Hmin_eq in *. rewrite Hmax_eq in *.
  split.
  - intros (k & Hk & -> & Hlt). exists e_min, e_max, k.
    repeat split; try done.
    apply Forall_forall. intros e He.
    rewrite Forall_forall in Hmin, Hmax.
    split; [by apply Hmin|by apply Hmax].
  - intros (e1 & e2 & k & He1 & He2 & Hall & Hk & -> & Hlt).
    rewrite Forall_forall in Hmin, Hmax, Hall.
    assert (Exon.start e1 = Exon.start e_min) as Heq1.
    { apply Z.le_antisymm; [by apply Hall|by apply (Hmin e1)]. }
    assert (Exon.stop e2 = Exon.stop e_max) as Heq2.
    { apply Z.le_antisymm; [by apply (Hmax e2)|by apply Hall]. }
    exists k. lia.
Qed.

Lemma elem_of_explode_Some {A} (cells : list (list A)) x :
  Some x ∈ explode cells ↔ ∃ c, c ∈ cells ∧ x ∈ c.
Proof.
  unfold explode. rewrite list_elem_of_bind. split.
  - intros (c & Hx & Hc). exists c. split; [done|].
    destruct c as [|y c]; [by apply list_elem_of_singleton in Hx|].
    by apply list_elem_of_fmap in Hx as (z & [= ->] & Hz).
  - intros (c & Hc & Hx). exists c. split; [|done].
    destruct c as [|y c]; [by apply elem_of_nil in Hx|].
    by apply list_elem_of_fmap_2.
Qed.

Lemma elem_of_explode_None {A} (cells : list (list A)) :
  None ∈ explode cells ↔ [] ∈ cells.
Proof.
  unfold explode. rewrite list_elem_of_bind. split.
  - intros (c & Hx & Hc). destruct c as [|y c]; [done|].
    by apply list_elem_of_fmap in Hx as (z & [=] & Hz).
  - intros Hc. exists []. split; [|done]. by apply list_elem_of_singleton.
Qed.

Lemma elem_of_shared_bam bam_df exon_df r :
  r ∈ shared_bam bam_df exon_df ↔
  r ∈ bam_df ∧ Bam.chr r ∈ Exon.chr <$> exon_df.
Proof.
  unfold shared_bam. rewrite list_elem_of_filter, elem_of_unique. tauto.
Qed.

Lemma elem_of_shared_exon bam_df exon_df e :
  e ∈ shared_exon bam_df exon_df ↔
  e ∈ exon_df ∧ Exon.chr e ∈ Bam.chr <$> bam_df.
Proof.
  unfold shared_exon. rewrite list_elem_of_filter, elem_of_unique. tauto.
Qed.

(** The exons of a chromosome that has a read are not touched by the
    chromosome restriction. *)
Lemma filter_chr_shared_exon bam_df exon_df chr :
  chr ∈ Bam.chr <$> bam_df →
  filter (λ e, Exon.chr e = chr) (shared_exon bam_df exon_df)
    = filter (λ e, Exon.chr e = chr) exon_df.
Proof.
  intros Hchr. unfold shared_exon. rewrite list_filter_filter.
  apply list_filter_iff. intros e. rewrite elem_of_unique.
  split; [tauto|]. intros ->. done.
Qed.

(** What [results] holds when the loops are done: for every visited cell
    with a read and an exon, the rows [get_bam_tran] makes of them. *)
Lemma elem_of_bamtranscript_results bam_df exon_df results w :
  bamtranscript_results bam_df exon_df = Ok results →
  w ∈ results ↔
  ∃ cell, cell ∈ cells bam_df exon_df
    ∧ cell_reads bam_df exon_df cell ≠ []
    ∧ cell_exons bam_df exon_df cell ≠ []
    ∧ w = get_bam_tran (cell_reads bam_df exon_df cell)
                       (cell_exons bam_df exon_df cell).
Proof.
  rewrite bamtranscript_results_Ok. intros [= <-].
  rewrite join_fmap_bind, list_elem_of_bind. split.
  - intros (chr & Hw & Hchr). unfold chr_windows in Hw.
    apply list_elem_of_bind in Hw as (i & Hw & Hi).
    exists (chr, i). split; [by apply elem_of_cells|].
    unfold window_result in Hw. case_decide as Hne;
      [|by apply elem_of_nil in Hw].
    apply list_elem_of_singleton in Hw. unfold cell_reads, cell_exons.
    simpl. tauto.
  - intros ([chr i] & [Hchr Hi]%elem_of_cells & Hr & He & ->).
    exists chr. split; [|done]. unfold chr_windows.
    apply list_elem_of_bind. exists i. split; [|done].
    unfold window_result. unfold cell_reads, cell_exons in *. simpl in *.
    rewrite decide_True by done. by apply list_elem_of_singleton.
Qed.

Lemma bamtranscript_Ok_inv bam_df exon_df out :
  bamtranscript bam_df exon_df = Ok out →
  ∃ results, bamtranscript_results bam_df exon_df = Ok results
             ∧ out = explode results.
Proof.
  unfold bamtranscript.
  destruct (bamtranscript_results bam_df exon_df) as [results|e]; [|done].
  cbn. destruct results; [done|]. intros [= <-]. by eexists.
Qed.

(** X5.  The rows of [bamtranscript] that are not null are the projected
    rows ([projected], with the 64-bit sums and differences of the
    columns) of the pairs of a read and an exon of the same chromosome
    such that the read lies within the exon and both lie within one
    window of that chromosome, from the window's start to 225000
    positions after it.  A contained pair that no window holds whole
    gives no row. *)
Theorem bamtranscript_rows bam_df exon_df out t :
  bamtranscript bam_df exon_df = Ok out →
  Some t ∈ out ↔
  ∃ r e i,
    r ∈ bam_df ∧ e ∈ exon_df ∧ Bam.chr r = Exon.chr e
    ∧ i ∈ window_starts (filter (λ e', Exon.chr e' = Bam.chr r) exon_df)
    ∧ (i ≤ Bam.start r ∧ Bam.stop r ≤ i + 225000)
    ∧ (i ≤ Exon.start e ∧ Exon.stop e ≤ i + 225000)
    ∧ (Bam.start r >= Exon.start e ∧ Bam.stop r ≤ Exon.stop e)
    ∧ t = projected r e.
Proof.
  intros (results & Hres & ->)%bamtranscript_Ok_inv.
  rewrite elem_of_explode_Some.
  setoid_rewrite (elem_of_bamtranscript_results _ _ _ _ Hres).
  split.
  - intros (w & ([chr i] & [Hchr Hi]%elem_of_cells & _ & _ & ->) & Ht).
    apply elem_of_get_bam_tran in Ht
      as (r & e & Hr & He & Hre & Hin & ->).
    unfold cell_reads, cell_exons in Hr, He. simpl in Hr, He.
    apply elem_of_window_bam in Hr as ([<- Hr]%list_elem_of_filter & Hwr).
    apply elem_of_window_exon in He as ([_ He]%list_elem_of_filter & Hwe).
    apply elem_of_shared_bam in Hr as [Hr _].
    apply elem_of_shared_exon in He as [He _].
    rewrite filter_chr_shared_exon in Hi
      by (apply list_elem_of_fmap; by exists r).
    exists r, e, i. done.
  - intros (r & e & i & Hr & He & Hre & Hi & Hwr & Hwe & Hin & ->).
    assert (r ∈ shared_bam bam_df exon_df) as Hr'.
    { apply elem_of_shared_bam. split; [done|].
      apply list_elem_of_fmap. by exists e. }
    assert (e ∈ shared_exon bam_df exon_df) as He'.
    { apply elem_of_shared_exon. split; [done|].
      apply list_elem_of_fmap. by exists r. }
    assert (r ∈ cell_reads bam_df exon_df (Bam.chr r, i)) as Hcr.
    { unfold cell_reads. simpl. apply elem_of_window_bam.
      split; [|done]. by apply list_elem_of_filter. }
    assert (e ∈ cell_exons bam_df exon_df (Bam.chr r, i)) as Hce.
    { unfold cell_exons. simpl. apply elem_of_window_exon.
      split; [|done]. by apply list_elem_of_filter. }
    eexists. split.
    + exists (Bam.chr r, i). split; [|split; [|split; [|done]]].
      * apply elem_of_cells. split.
        -- apply elem_of_unique, list_elem_of_fmap. by exists r.
        -- rewrite filter_chr_shared_exon; [done|].
           apply list_elem_of_fmap. by exists r.
      * intros Hnil. rewrite Hnil in Hcr. by apply elem_of_nil in Hcr.
      * intros Hnil. rewrite Hnil in Hce. by apply elem_of_nil in Hce.
    + apply elem_of_get_bam_tran. exists r, e. done.
Qed.

(** On the read and the exon of scenario A, in the window that starts at
    90. *)
Lemma bamtranscript_rows_witness :
  Some (Tran.mk 1 "chr1" 100 130 30 "tranA" 10 40)
    ∈ [Some (Tran.mk 1 "chr1" 100 130 30 "tranA" 10 40)] ↔
  ∃ r e i,
    r ∈ [scenario_A_read] ∧ e ∈ [scenario_A_exon]
    ∧ Bam.chr r = Exon.chr e
    ∧ i ∈ window_starts
            (filter (λ e', Exon.chr e' = Bam.chr r) [scenario_A_exon])
    ∧ (i ≤ Bam.start r ∧ Bam.stop r ≤ i + 225000)
    ∧ (i ≤ Exon.start e ∧ Exon.stop e ≤ i + 225000)
    ∧ (Bam.start r >= Exon.start e ∧ Bam.stop r ≤ Exon.stop e)
    ∧ Tran.mk 1 "chr1" 100 130 30 "tranA" 10 40 = projected r e.
Proof.
  apply (bamtranscript_rows [scenario_A_read] [scenario_A_exon]).
  reflexivity.
Defined.

(** X6.  [bamtranscript] returns a row of nulls for a visited cell that
    has a read and an exon but no read within an exon, and has no other
    row of nulls. *)
Theorem bamtranscript_null_rows bam_df exon_df out :
  bamtranscript bam_df exon_df = Ok out →
  None ∈ out ↔
  Exists (λ cell,
            cell_reads bam_df exon_df cell ≠ []
            ∧ cell_exons bam_df exon_df cell ≠ []
            ∧ get_bam_tran (cell_reads bam_df exon_df cell)
                           (cell_exons bam_df exon_df cell) = [])
         (cells bam_df exon_df).
Proof.
  intros (results & Hres & ->)%bamtranscript_Ok_inv.
  rewrite elem_of_explode_None, Exists_exists.
  rewrite (elem_of_bamtranscript_results _ _ _ _ Hres).
  split; intros (cell & Hcell & Hr & He & Hw); exists cell; done.
Qed.

(** A read of chr1 beside the one exon of chr1. *)
Lemma bamtranscript_null_rows_witness :
  None ∈ [None : option Tran.row] ↔
  Exists (λ cell,
            cell_reads [Bam.mk 1 "chr1" 300 330 30] [scenario_A_exon] cell
              ≠ []
            ∧ cell_exons [Bam.mk 1 "chr1" 300 330 30] [scenario_A_exon] cell
                ≠ []
            ∧ get_bam_tran
                (cell_reads [Bam.mk 1 "chr1" 300 330 30] [scenario_A_exon]
                   cell)
                (cell_exons [Bam.mk 1 "chr1" 300 330 30] [scenario_A_exon]
                   cell) = [])
         (cells [Bam.mk 1 "chr1" 300 330 30] [scenario_A_exon]).
Proof.
  apply (bamtranscript_null_rows [Bam.mk 1 "chr1" 300 330 30]
           [scenario_A_exon]).
  reflexivity.
Defined.

(** X7.  [bamtranscript] raises in one case only: [results] is empty, which
    happens exactly when no visited cell has both a read and an exon, and
    the exception is that of [pl.from_dicts].  [min] and [max] are never
    applied to an empty column. *)
Theorem bamtranscript_raises_iff bam_df exon_df e :
  bamtranscript bam_df exon_df = Err e ↔
  e = NoDataError
  ∧ Forall (λ cell, cell_reads bam_df exon_df cell = []
                    ∨ cell_exons bam_df exon_df cell = [])
           (cells bam_df exon_df).
Proof.
  split; [apply bamtranscript_Err_inv|].
  intros [-> Hcells%bamtranscript_results_nil].
  unfold bamtranscript. by rewrite Hcells.
Qed.

(** ** [bamrelativetocds] *)

Lemma mapM_filter_omap {A B} (f : A → result B) (g : A → option B)
    (P : A → Prop) `{∀ x, Decision (P x)} (l : list A) :
  Forall (λ x, if decide (P x) then ∃ y, f x = Ok y ∧ g x = Some y
               else g x = None) l →
  mapM f (filter P l) = Ok (omap g l).
Proof.
  induction 1 as [|x l Hx _ IH]; [done|].
  rewrite filter_cons. cbn [omap list_omap].
  destruct (decide (P x)) as [HP|HP].
  - destruct Hx as (y & Hf & ->). cbn. rewrite Hf. cbn. by rewrite IH.
  - by rewrite Hx, IH.
Qed.

Lemma filter_tran_id_cds_shared bamdf cdsdf x :
  Some x ∈ bamdf →
  filter (λ c, Cds.tran_id c = Tran.tran_id x)
    (cds_shared cdsdf
       (unique ((λ r : option Tran.row, Tran.tran_id <$> r) <$> bamdf)))
  = filter (λ c, Cds.tran_id c = Tran.tran_id x) cdsdf.
Proof.
  intros Hx. unfold cds_shared. rewrite list_filter_filter.
  apply list_filter_iff. intros c. split; [tauto|]. intros Hid.
  split; [done|]. apply elem_of_unique, list_elem_of_fmap.
  exists (Some x). split; [cbn; congruence|done].
Qed.

(** What the rows of [bamdf] that are not null become, in order. *)
Lemma bamrelativetocds_mapM bamdf cdsdf :
  mapM (relative_row
          (start_dict_of
             (cds_shared cdsdf
                (unique ((λ r : option Tran.row, Tran.tran_id <$> r)
                           <$> bamdf)))))
       (bam_shared bamdf (unique (Cds.tran_id <$> cdsdf)))
  = Ok (omap (cds_relative cdsdf) (omap id bamdf)).
Proof.
  unfold bam_shared. apply mapM_filter_omap.
  apply Forall_forall. intros x Hx.
  apply list_elem_of_omap in Hx as (r & Hr & Heq). unfold id in Heq.
  subst r. unfold relative_row, subscript, start_dict_of, cds_relative.
  rewrite dict_zip_lookup, (filter_tran_id_cds_shared _ _ _ Hr).
  case_decide as Hin.
  - apply elem_of_unique, list_elem_of_fmap in Hin as (c & Hid & Hc).
    destruct (last (filter _ cdsdf)) as [c'|] eqn:Hlast.
    + eexists. split; reflexivity.
    + apply last_None in Hlast.
      assert (c ∈ filter (λ c, Cds.tran_id c = Tran.tran_id x) cdsdf)
        as Hc' by by apply list_elem_of_filter.
      rewrite Hlast in Hc'. by apply elem_of_nil in Hc'.
  - destruct (last (filter _ cdsdf)) as [c'|] eqn:Hlast; [|done].
    apply last_Some_elem_of, list_elem_of_filter in Hlast as [Hid Hc'].
    destruct Hin. apply elem_of_unique, list_elem_of_fmap. by exists c'.
Qed.

Lemma bamrelativetocds_rows bamdf cdsdf :
  bamrelativetocds bamdf cdsdf =
    match omap (cds_relative cdsdf) (omap id bamdf) with
    | [] => Err ComputeError
    | rows => Ok rows
    end.
Proof.
  pose proof (bamrelativetocds_mapM bamdf cdsdf) as Hrows.
  unfold bamrelativetocds.
  destruct (bam_shared bamdf _) as [|x bam_df] eqn:Hbam.
  - injection Hrows as <-. done.
  - rewrite Hrows. apply mapM_Ok_inv, Forall2_length in Hrows.
    by destruct (omap _ _).
Qed.


(** ** [asitecalc] *)

(** X9.  [asitecalc] raises in two cases only: on a table without rows,
    where [pl.from_dicts] has nothing to infer a schema from, and on a
    table with a length that [offsets] has no entry for, where the
    subscript [offsets[value]] fails. *)
Theorem asitecalc_raises_iff df offsets e :
  asitecalc df offsets = Err e ↔
  (e = NoDataError ∧ df = [])
  ∨ (e = KeyError ∧ Exists (λ r, offsets !! BamCds.length r = None) df).
Proof.
  destruct (asitecalc_cases df offsets)
    as [(Hne & Hcov & ->)|[[-> ->]|[Hex ->]]].
  - split; [done|]. intros [[_ ->]|[_ Hex]]; [done|].
    apply Exists_exists in Hex as (r & Hr & Hnone).
    unfold covered in Hcov. rewrite Forall_forall in Hcov.
    destruct (Hcov r Hr) as [o Ho]. congruence.
  - split; [intros [= <-]; by left|].
    intros [[-> _]|[_ Hex%Exists_nil]]; done.
  - split; [intros [= <-]; by right|].
    intros [[_ ->]|[-> _]]; [by apply Exists_nil in Hex|done].
Qed.

Lemma NoDup_fmap_elem_of_eq {A B} (f : A → B) (l : list A) x y :
  NoDup (f <$> l) → x ∈ l → y ∈ l → f x = f y → x = y.
Proof.
  intros Hnd [i Hi]%list_elem_of_lookup [j Hj]%list_elem_of_lookup Hxy.
  assert (i = j) as ->; [|congruence].
  apply (NoDup_lookup (f <$> l) i j (f x)); [done|..].
  - by rewrite list_lookup_fmap, Hi.
  - by rewrite list_lookup_fmap, Hj, Hxy.
Qed.

Lemma group_by_sum_Permutation `{EqDecision K} (rows1 rows2 : list (K * Z)) :
  rows1 ≡ₚ rows2 → group_by_sum rows1 ≡ₚ group_by_sum rows2.
Proof.
  intros Hperm. apply NoDup_Permutation.
  - eapply NoDup_fmap_1, group_by_sum_NoDup.
  - eapply NoDup_fmap_1, group_by_sum_NoDup.
  - intros [k n]. rewrite !elem_of_group_by_sum.
    by rewrite (count_of_Permutation _ _ _ Hperm), Hperm.
Qed.

(** The frame after [group_by], [with_columns] and [sort] does not depend
    on the order of the rows before [group_by]. *)
Lemma bed_of_Permutation_eq df_asite1 df_asite2 :
  df_asite1 ≡ₚ df_asite2 → bed_of df_asite1 = bed_of df_asite2.
Proof.
  intros Hperm.
  assert (bed_of df_asite1 ≡ₚ bed_of df_asite2) as Hbed.
  { rewrite !bed_of_Permutation.
    apply fmap_Permutation, group_by_sum_Permutation.
    by apply fmap_Permutation. }
  apply (StronglySorted_unique_strong bed_le);
    [|apply bed_of_sorted..|done].
  intros b1 b2 Hb1 Hb2 [Hc12 Ha12] [Hc21 Ha21].
  rewrite <-Hbed in Hb2.
  apply (NoDup_fmap_elem_of_eq bed_key (bed_of df_asite1)); [|done..|].
  { rewrite bed_of_keys. apply group_by_sum_NoDup. }
  assert (Bed.chr b1 = Bed.chr b2) as Hchr
    by by apply (anti_symm String.le).
  unfold bed_key. f_equal; [done|].
  apply Z.le_antisymm; [by apply Ha12|by apply Ha21].
Qed.

(** X10.  The result of [asitecalc] is a function of the columns [chr],
    [start], [length] and [count] alone, and of the rows as a multiset:
    two tables whose rows agree on these four columns up to their order
    give the same result, be it a table or an exception. *)
Theorem asitecalc_order_and_columns df1 df2 offsets :
  (λ r, (BamCds.chr r, BamCds.start r, BamCds.length r, BamCds.count r))
     <$> df1
  ≡ₚ (λ r, (BamCds.chr r, BamCds.start r, BamCds.length r, BamCds.count r))
       <$> df2 →
  asitecalc df1 offsets = asitecalc df2 offsets.
Proof.
  intros Hperm.
  set (row := λ x : string * Z * Z * Z,
         (x.1.1.1, wrap64 (x.1.1.2 + default 0 (offsets !! x.1.2)), x.2)).
  assert (a_site_row offsets <$> df1 ≡ₚ a_site_row offsets <$> df2) as Hrows.
  { apply (fmap_Permutation row) in Hperm.
    by rewrite <-!list_fmap_compose in Hperm. }
  assert (BamCds.length <$> df1 ≡ₚ BamCds.length <$> df2) as Hlen.
  { apply (fmap_Permutation (λ x : string * Z * Z * Z, x.1.2)) in Hperm.
    by rewrite <-!list_fmap_compose in Hperm. }
  assert (∀ P : Z → Prop,
            Exists (λ r, P (BamCds.length r)) df1
            ↔ Exists (λ r, P (BamCds.length r)) df2) as Hex.
  { intros P. rewrite <-!(Exists_fmap BamCds.length P). by rewrite Hlen. }
  assert (df1 = [] ↔ df2 = []) as Hnil.
  { split; intros ->.
    - symmetry in Hlen. apply Permutation_nil_r in Hlen.
      by apply fmap_nil_inv in Hlen.
    - apply Permutation_nil_r in Hlen. by apply fmap_nil_inv in Hlen. }
  destruct (asitecalc_cases df1 offsets)
    as [(Hne1 & Hcov1 & ->)|[[Hd1 ->]|[Hex1 ->]]];
  destruct (asitecalc_cases df2 offsets)
    as [(Hne2 & Hcov2 & ->)|[[Hd2 ->]|[Hex2 ->]]]; try done.
  - f_equal. apply bed_of_Permutation_eq.
    by rewrite !asite_rows_Permutation.
  - tauto.
  - apply (Hex (λ l, offsets !! l = None)) in Hex2.
    apply Exists_exists in Hex2 as (r & Hr & Hnone).
    unfold covered in Hcov1. rewrite Forall_forall in Hcov1.
    destruct (Hcov1 r Hr) as [o Ho]. congruence.
  - tauto.
  - subst df1. apply (Hex (λ l, offsets !! l = None)) in Hex2.
    by apply Exists_nil in Hex2.
  - apply (Hex (λ l, offsets !! l = None)) in Hex1.
    apply Exists_exists in Hex1 as (r & Hr & Hnone).
    unfold covered in Hcov2. rewrite Forall_forall in Hcov2.
    destruct (Hcov2 r Hr) as [o Ho]. congruence.
  - subst df2. apply (Hex (λ l, offsets !! l = None)) in Hex1.
    by apply Exists_nil in Hex1.
Qed.

(** Rows 1 and 2 of [scenario_D] swapped, with other transcripts, stops
    and CDS-relative starts. *)
Lemma asitecalc_order_and_columns_witness :
  asitecalc [BamCds.mk 4 "chr1" 103 140 28 "tranB" 0;
             BamCds.mk 3 "chr1" 100 135 30 "tranC" 1] scenario_D_offsets
    = asitecalc scenario_D scenario_D_offsets.
Proof.
  apply (asitecalc_order_and_columns
           [BamCds.mk 4 "chr1" 103 140 28 "tranB" 0;
            BamCds.mk 3 "chr1" 100 135 30 "tranC" 1]
           scenario_D scenario_D_offsets).
  apply perm_swap.
Defined.

(** ** [split_func] *)

Lemma string_app_nil_l (s : string) : "" +:+ s = s.
Proof. reflexivity. Qed.

Lemma string_app_cons c (s1 s2 : string) :
  String c s1 +:+ s2 = String c (s1 +:+ s2).
Proof. reflexivity. Qed.

Lemma has_x_nil : ¬ has_x "".
Proof. intros ([|c a] & b & Heq); discriminate. Qed.

Lemma has_x_cons c s :
  has_x (String c s) ↔
  (c = "_"%char ∧ ∃ s', s = String "x" s') ∨ has_x s.
Proof.
  split.
  - intros ([|c' a] & b & Heq).
    + injection Heq as -> ->. left. split; [done|]. by exists b.
    + rewrite string_app_cons in Heq. injection Heq as -> ->.
      right. by exists a, b.
  - intros [[-> [s' ->]]|(a & b & ->)].
    + by exists "", s'.
    + by exists (String c a), b.
Qed.

Lemma cons_piece_lookup_1 c pieces :
  cons_piece c pieces !! 1%nat = pieces !! 1%nat.
Proof. by destruct pieces. Qed.

Lemma split_x_cons c c' s :
  split_x (String c (String c' s)) =
    if (Ascii.eqb c "_" && Ascii.eqb c' "x")%bool
    then "" :: split_x s
    else cons_piece c (split_x (String c' s)).
Proof. reflexivity. Qed.

Lemma split_x_not_nil s : split_x s ≠ [].
Proof.
  destruct s as [|c [|c' s]]; [done..|].
  rewrite split_x_cons. destruct (_ && _); [done|].
  by destruct (split_x _).
Qed.

Lemma is_sep_true c c' :
  (Ascii.eqb c "_" && Ascii.eqb c' "x")%bool = true ↔
  c = "_"%char ∧ c' = "x"%char.
Proof. by rewrite andb_true_iff, !Ascii.eqb_eq. Qed.

Lemma split_x_lookup_1 s : is_Some (split_x s !! 1%nat) ↔ has_x s.
Proof.
  induction s as [|c s IH].
  - split; [by intros [? [=]]|]. by intros ?%has_x_nil.
  - rewrite has_x_cons. destruct s as [|c' s].
    + split; [by intros [? [=]]|].
      intros [[_ [s' [=]]]|?%has_x_nil]; done.
    + rewrite split_x_cons.
      destruct (_ && _) eqn:Hsep.
      * apply is_sep_true in Hsep as [-> ->]. split.
        -- intros _. left. split; [done|]. by exists s.
        -- intros _. destruct (split_x s) eqn:Hs; [|by eexists].
           by apply split_x_not_nil in Hs.
      * rewrite cons_piece_lookup_1, IH. split; [by right|].
        intros [[-> [s' [= -> ->]]]|?]; [|done].
        by rewrite !Ascii.eqb_refl in Hsep.
Qed.

(** X11.  [split_func] raises [IndexError] exactly on the names that do not
    hold ["_x"]: then [split] returns one piece and the subscript [[1]]
    is out of range. *)
Theorem split_func_IndexError_iff s :
  split_func s = Raise IndexError ↔ ¬ has_x s.
Proof.
  rewrite <-split_x_lookup_1. unfold split_func.
  destruct (split_x s !! 1%nat) as [piece|].
  - split; [|by intros []].
    destruct (py_int piece); discriminate.
  - split; [|done]. by intros _ [? [=]].
Qed.

Lemma split_x_prefix p rest :
  ¬ has_x p → split_x (p +:+ "_x" +:+ rest) = p :: split_x rest.
Proof.
  induction p as [|c p IH]; [done|].
  rewrite has_x_cons. intros Hno.
  rewrite string_app_cons. destruct p as [|c' p].
  - rewrite string_app_nil_l. change ("_x" +:+ rest)
      with (String "_" (String "x" rest)).
    rewrite split_x_cons.
    replace (Ascii.eqb "_" "x") with false by done.
    rewrite andb_false_r. by rewrite split_x_cons.
  - rewrite string_app_cons, split_x_cons.
    destruct (_ && _) eqn:Hsep.
    + apply is_sep_true in Hsep as [-> ->].
      destruct Hno. left. split; [done|]. by exists p.
    + rewrite <-string_app_cons, IH by tauto. done.
Qed.

Lemma split_x_no_x s : ¬ has_x s → split_x s = [s].
Proof.
  induction s as [|c s IH]; [done|].
  rewrite has_x_cons. intros Hno. destruct s as [|c' s]; [done|].
  rewrite split_x_cons. destruct (_ && _) eqn:Hsep.
  - apply is_sep_true in Hsep as [-> ->].
    destruct Hno. left. split; [done|]. by exists s.
  - rewrite IH by tauto. done.
Qed.

(** X12.  When a name holds ["_x"], [split_func] reads the piece between
    the first ["_x"] and the second, or the end of the name when there is
    no second one; what follows a second ["_x"] is never looked at. *)
Theorem split_func_second_piece p m :
  ¬ has_x p → ¬ has_x m →
  split_func (p +:+ "_x" +:+ m) = lift (py_int m)
  ∧ ∀ t, split_func (p +:+ "_x" +:+ m +:+ "_x" +:+ t) = lift (py_int m).
Proof.
  intros Hp Hm. unfold split_func. split.
  - by rewrite split_x_prefix, split_x_no_x.
  - intros t. by rewrite !split_x_prefix.
Qed.

Lemma split_func_second_piece_witness :
  split_func ("read7" +:+ "_x" +:+ "12") = lift (py_int "12")
  ∧ ∀ t, split_func ("read7" +:+ "_x" +:+ "12" +:+ "_x" +:+ t)
         = lift (py_int "12").
Proof.
  apply (split_func_second_piece "read7" "12").
  - rewrite <-split_x_lookup_1. by intros [? [=]].
  - rewrite <-split_x_lookup_1. by intros [? [=]].
Defined.

Lemma is_digit_spec c :
  is_digit c →
  digit_of c = Some (Z.of_N (N_of_ascii c) - 48)
  ∧ is_space c = false
  ∧ Ascii.eqb c "_" = false ∧ Ascii.eqb c "-" = false
  ∧ Ascii.eqb c "+" = false.
Proof.
  unfold is_digit, digit_of, is_space. intros [d Hd].
  destruct (_ && _) eqn:Hrange in Hd; [|done].
  apply andb_true_iff in Hrange as [Hlo%Z.leb_le Hhi%Z.leb_le].
  rewrite (proj2 (andb_true_iff _ _)) by (split; by apply Z.leb_le).
  split; [done|]. split.
  { apply orb_false_iff. split; [apply andb_false_iff; right|]; lia. }
  repeat split; apply Ascii.eqb_neq; intros ->; simpl in *; lia.
Qed.

Lemma lstrip_digit c s : is_digit c → lstrip (String c s) = String c s.
Proof. intros (_ & Hsp & _)%is_digit_spec. simpl. by rewrite Hsp. Qed.

Lemma rstrip_digits s :
  Forall is_digit (String.list_ascii_of_string s) → rstrip s = s.
Proof.
  induction s as [|c s IH]; [done|]. simpl.
  intros [(_ & Hsp & _)%is_digit_spec Hs]%Forall_cons.
  rewrite IH by done. destruct s; [by rewrite Hsp|done].
Qed.

Lemma digits_go_digits s acc n :
  Forall is_digit (String.list_ascii_of_string s) →
  digits_go s acc n =
    Some (foldl (λ acc c, 10 * acc + (Z.of_N (N_of_ascii c) - 48)) acc
                (String.list_ascii_of_string s),
          n + Z.of_nat (String.length s)).
Proof.
  revert acc n. induction s as [|c s IH]; intros acc n; simpl.
  - intros _. do 2 f_equal. lia.
  - intros [(Hd & _ & Hu & _)%is_digit_spec Hs]%Forall_cons.
    rewrite Hu, Hd. cbn. rewrite IH by done. do 2 f_equal. lia.
Qed.

Lemma digits_no_x s :
  Forall is_digit (String.list_ascii_of_string s) → ¬ has_x s.
Proof.
  induction s as [|c s IH]; [intros _; apply has_x_nil|]. simpl.
  intros [(_ & _ & Hu & _)%is_digit_spec Hs]%Forall_cons.
  rewrite has_x_cons. intros [[-> _]|?]; [done|by apply IH].
Qed.

Lemma py_int_digits d :
  d ≠ "" → Forall is_digit (String.list_ascii_of_string d) →
  py_int d = if decide (String.length d ≤ 4300)%nat
             then Ok (decimal d) else Err ValueError.
Proof.
  intros Hne Hd. unfold py_int. rewrite rstrip_digits; last first.
  { destruct d as [|c d]; [done|]. rewrite lstrip_digit; [done|].
    by apply Forall_cons in Hd as [? _]. }
  destruct d as [|c d]; [done|]. clear Hne.
  pose proof Hd as [Hc Hd']%Forall_cons.
  rewrite lstrip_digit by done.
  destruct (is_digit_spec c Hc) as (Hdig & _ & _ & Hminus & Hplus).
  rewrite Hminus, Hplus, Hdig. cbn.
  rewrite digits_go_digits by done.
  unfold decimal. simpl.
  replace (10 * 0 + (Z.of_N (N_of_ascii c) - 48))
    with (Z.of_N (N_of_ascii c) - 48) by lia.
  case_decide as Hlen.
  - rewrite (proj2 (Z.ltb_ge _ _)) by lia. done.
  - rewrite (proj2 (Z.ltb_lt _ _)) by lia. done.
Qed.

(** X13.  A name made of a prefix without ["_x"], then ["_x"], then decimal
    digits is read as the number the digits write, unless there are more
    than 4300 of them, which [int] refuses. *)
Theorem split_func_reads_count p d :
  ¬ has_x p → d ≠ "" →
  Forall is_digit (String.list_ascii_of_string d) →
  split_func (p +:+ "_x" +:+ d) =
    if decide (String.length d ≤ 4300)%nat
    then Done (decimal d) else Raise (Raised ValueError).
Proof.
  intros Hp Hne Hd. unfold split_func.
  rewrite split_x_prefix, split_x_no_x by auto using digits_no_x.
  simpl. rewrite py_int_digits by done. by case_decide.
Qed.

Lemma split_func_reads_count_witness :
  split_func ("read7" +:+ "_x" +:+ "0123") =
    if decide (String.length "0123" ≤ 4300)%nat
    then Done (decimal "0123") else Raise (Raised ValueError).
Proof.
  apply (split_func_reads_count "read7" "0123").
  - rewrite <-split_x_lookup_1. by intros [? [=]].
  - done.
  - repeat constructor; by eexists.
Defined.


Lemma pretty_N_char_digit x :
  (x < 10)%N →
  is_digit (pretty_N_char x)
  ∧ Z.of_N (N_of_ascii (pretty_N_char x)) - 48 = Z.of_N x.
Proof.
  intros Hx.
  assert (x = 0 ∨ x = 1 ∨ x = 2 ∨ x = 3 ∨ x = 4 ∨ x = 5 ∨ x = 6 ∨ x = 7
          ∨ x = 8 ∨ x = 9)%N as Hcases by lia.
  repeat (destruct Hcases as [->|Hcases]); try subst x;
    (split; [by eexists|done]).
Qed.

(** The digits [pretty_N_go] writes in front of a string of digits: they
    are digits, they read back as the number written, and a number below
    [10 ^ k] takes at most [k] of them. *)
Lemma pretty_N_go_length_ge x s :
  (String.length s ≤ String.length (pretty_N_go x s))%nat.
Proof.
  revert s. induction (N.lt_wf_0 x) as [x _ IH]. intros s.
  assert (x = 0 ∨ 0 < x)%N as [->|Hpos] by lia.
  { by rewrite pretty_N_go_0. }
  rewrite pretty_N_go_step by done.
  etrans; [|apply IH; by apply N.div_lt]. simpl. lia.
Qed.

Lemma pretty_N_go_digits x s :
  Forall is_digit (String.list_ascii_of_string s) →
  Forall is_digit (String.list_ascii_of_string (pretty_N_go x s))
  ∧ decimal (pretty_N_go x s)
    = foldl (λ acc c, 10 * acc + (Z.of_N (N_of_ascii c) - 48)) (Z.of_N x)
            (String.list_ascii_of_string s)
  ∧ ∀ k : nat, (x < 10 ^ N.of_nat k)%N →
      (String.length (pretty_N_go x s) ≤ k + String.length s)%nat.
Proof.
  revert s. induction (N.lt_wf_0 x) as [x _ IH]. intros s Hs.
  assert (x = 0 ∨ 0 < x)%N as [->|Hpos] by lia.
  { rewrite pretty_N_go_0. repeat split; [done|lia]. }
  rewrite pretty_N_go_step by done.
  destruct (pretty_N_char_digit (x `mod` 10)%N) as [Hdig Hval].
  { by apply N.mod_lt. }
  destruct (IH (x `div` 10)%N (N.div_lt x 10 Hpos eq_refl)
              (String (pretty_N_char (x `mod` 10)) s)) as (Hd & Hv & Hl).
  { simpl. by constructor. }
  split; [done|]. split.
  - rewrite Hv. simpl. f_equal. rewrite Hval.
    pose proof (N.div_mod x 10 ltac:(done)). lia.
  - intros k Hk. destruct k as [|k].
    { simpl in Hk. lia. }
    specialize (Hl k). simpl in Hl.
    rewrite Nat2N.inj_succ, N.pow_succ_r' in Hk.
    assert (x `div` 10 < 10 ^ N.of_nat k)%N
      by (apply N.Div0.div_lt_upper_bound; lia).
    specialize (Hl ltac:(done)). lia.
Qed.

(** X17.  A count written in decimal after ["_x"] is read back: for a
    prefix without ["_x"] and a number [n] below [10 ^ 4300],
    [split_func] of the prefix, ["_x"] and the decimal writing of [n] is
    [n]. *)
Theorem split_func_pretty p (n : N) :
  ¬ has_x p → (n < 10 ^ 4300)%N →
  split_func (p +:+ "_x" +:+ pretty n) = Done (Z.of_N n).
Proof.
  intros Hp Hn.
  assert (pretty n ≠ ""
          ∧ Forall is_digit (String.list_ascii_of_string (pretty n))
          ∧ decimal (pretty n) = Z.of_N n
          ∧ (String.length (pretty n) ≤ 4300)%nat) as (Hne & Hd & Hv & Hl).
  { unfold pretty, pretty_N. case_decide as H0.
    - subst n. split; [done|].
      split; [repeat constructor; by eexists|].
      split; [done|]. simpl. lia.
    - destruct (pretty_N_go_digits n "") as (Hd & Hv & Hl); [constructor|].
      split; [|split; [done|split; [done|]]].
      + assert (0 < n)%N as Hpos by lia.
        rewrite pretty_N_go_step by done. intros Heq.
        pose proof (pretty_N_go_length_ge (n `div` 10)%N
                      (String (pretty_N_char (n `mod` 10)) "")) as Hge.
        rewrite Heq in Hge. simpl in Hge. lia.
      + specialize (Hl 4300%nat). simpl String.length in Hl.
        rewrite Nat.add_0_r in Hl. apply Hl.
        by replace (N.of_nat 4300) with 4300%N by done. }
  unfold split_func.
  rewrite split_x_prefix, split_x_no_x by auto using digits_no_x.
  simpl. rewrite py_int_digits by done. rewrite decide_True by done.
  simpl. by rewrite Hv.
Qed.

Lemma split_func_pretty_witness :
  split_func ("read7" +:+ "_x" +:+ pretty 12%N) = Done (Z.of_N 12).
Proof.
  apply (split_func_pretty "read7" 12).
  - rewrite <-split_x_lookup_1. by intros [? [=]].
  - by vm_compute.
Defined.

(** ** [dftobed] *)

Section mapM_outcome.
Context {A B : Type} (f : A → outcome B).

Lemma mapM_Raise l x :
  mapM f l = Raise x → Exists (λ a, f a = Raise x) l.
Proof.
  induction l as [|a l IH]; [done|]. cbn.
  destruct (f a) as [b|x'] eqn:Ha; cbn.
  - destruct (mapM f l) as [bs|x'']; cbn; [done|].
    intros [= ->]. right. by apply IH.
  - intros [= ->]. by left.
Qed.

Lemma mapM_Done_inv l bs :
  mapM f l = Done bs → Forall2 (λ a b, f a = Done b) l bs.
Proof.
  revert bs. induction l as [|a l IH]; intros bs; cbn.
  - intros [= <-]. constructor.
  - destruct (f a) as [b|x'] eqn:Ha; cbn; [|done].
    destruct (mapM f l) as [bs'|x'']; cbn; [|done].
    intros [= <-]. constructor; auto.
Qed.
End mapM_outcome.

Lemma py_int_Err s e : py_int s = Err e → e = ValueError.
Proof.
  unfold py_int. destruct (rstrip (lstrip s)) as [|c s']; [by intros [= <-]|].
  destruct (if Ascii.eqb c "-" then _ else _) as [negative [|c' s'']];
    [by intros [= <-]|].
  destruct (_ ≫= _) as [[v n]|]; [|by intros [= <-]].
  destruct (4300 <? n); [by intros [= <-]|done].
Qed.

Lemma namesplit_row_Raise r x :
  namesplit_row r = Raise x → x = IndexError ∨ x = Raised ValueError.
Proof.
  unfold namesplit_row, split_func.
  destruct (split_x (Sam.qname r) !! 1%nat) as [piece|]; cbn;
    [|intros [= <-]; by left].
  destruct (py_int piece) as [n|e] eqn:Hint; cbn; [done|].
  intros [= <-]. right. by rewrite (py_int_Err _ _ Hint).
Qed.

Lemma namesplit_row_Done r b :
  namesplit_row r = Done b →
  Bam.chr b = Sam.rname r ∧ Bam.start b = Sam.pos r
  ∧ Bam.stop b = Sam.end_ r
  ∧ Bam.length b = wrap64 (Sam.end_ r - Sam.pos r)
  ∧ split_func (Sam.qname r) = Done (Bam.count b).
Proof.
  unfold namesplit_row. destruct (split_func (Sam.qname r)); cbn; [|done].
  by intros [= <-].
Qed.

Lemma bamrelativetocds_Ok_inv bamdf cdsdf bam_df2 :
  bamrelativetocds bamdf cdsdf = Ok bam_df2 →
  Forall (λ y, ∃ x, Some x ∈ bamdf
              ∧ BamCds.count y = Tran.count x ∧ BamCds.chr y = Tran.chr x
              ∧ BamCds.start y = Tran.start x
              ∧ BamCds.length y = Tran.length x) bam_df2.
Proof.
  rewrite bamrelativetocds_rows. intros Hrows.
  assert (bam_df2 = omap (cds_relative cdsdf) (omap id bamdf)) as ->
    by (destruct (omap _ _); congruence).
  apply Forall_forall. intros y (x & Hx & Hy)%list_elem_of_omap.
  apply list_elem_of_omap in Hx as (r & Hr & Heq). unfold id in Heq.
  subst r. exists x. split; [done|]. unfold cds_relative in Hy.
  destruct (last _); [|done]. by injection Hy as <-.
Qed.

Lemma bamrelativetocds_Err bamdf cdsdf e :
  bamrelativetocds bamdf cdsdf = Err e → e = ComputeError.
Proof.
  rewrite bamrelativetocds_rows. destruct (omap _ _); congruence.
Qed.

(** A row of [bamtranscript] that is not null carries the count,
    chromosome, start and length of a read of [bam_df]. *)
Lemma bamtranscript_row_read bam_df exon_df out t :
  bamtranscript bam_df exon_df = Ok out → Some t ∈ out →
  ∃ r, r ∈ bam_df ∧ Tran.count t = Bam.count r ∧ Tran.chr t = Bam.chr r
       ∧ Tran.start t = Bam.start r ∧ Tran.length t = Bam.length r.
Proof.
  intros (results & Hres & ->)%bamtranscript_Ok_inv
    (w & Hw & Ht)%elem_of_explode_Some.
  apply (elem_of_bamtranscript_results _ _ _ _ Hres) in Hw
    as (cell & _ & _ & _ & ->).
  apply elem_of_get_bam_tran in Ht as (r & e & Hr & _ & _ & _ & ->).
  unfold cell_reads in Hr.
  apply elem_of_window_bam in Hr as ([_ Hr]%list_elem_of_filter & _).
  apply elem_of_shared_bam in Hr as [Hr _]. by exists r.
Qed.

Lemma bam_offsets_of_lengths bam_to_cds length :
  length ∈ Hist.length <$> bam_offsets_of bam_to_cds ↔
  length ∈ BamCds.length <$> bam_to_cds.
Proof.
  unfold bam_offsets_of. rewrite <-list_fmap_compose.
  rewrite !list_elem_of_fmap. split.
  - intros ([[j l] n] & -> & Hg). simpl.
    assert ((j, l) ∈ (group_by_sum
      ((λ r, (BamCds.bamcds_start r, BamCds.length r, BamCds.count r))
         <$> bam_to_cds)).*1) as Hk
      by (apply list_elem_of_fmap; by exists (j, l, n)).
    apply (proj1 (group_by_sum_keys _ _)) in Hk.
    rewrite <-list_fmap_compose in Hk.
    apply list_elem_of_fmap in Hk as (r & [= -> ->] & Hr). by exists r.
  - intros (r & -> & Hr).
    assert ((BamCds.bamcds_start r, BamCds.length r) ∈ (group_by_sum
      ((λ r, (BamCds.bamcds_start r, BamCds.length r, BamCds.count r))
         <$> bam_to_cds)).*1) as Hk.
    { apply (proj2 (group_by_sum_keys _ _)). rewrite <-list_fmap_compose.
      apply list_elem_of_fmap. by exists r. }
    apply list_elem_of_fmap in Hk as ([[j l] n] & [= Hj Hl] & Hg).
    by exists (j, l, n).
Qed.

(** The offsets inferred from a table have an entry for each of its
    lengths. *)
Lemma inferred_offsets_covered bam_to_cds :
  covered (change_point_analysis (bam_offsets_of bam_to_cds)) bam_to_cds.
Proof.
  apply Forall_forall. intros r Hr.
  apply change_point_analysis_is_Some, bam_offsets_of_lengths,
    list_elem_of_fmap. by exists r.
Qed.

(** X14.  When no offsets are passed ([None] or an empty dict),
    [dftobed] never stops on a missing offset: the offsets it infers have
    an entry for every length that reaches [asitecalc]. *)
Theorem dftobed_inferred_no_KeyError {Annotation}
    (getexons_and_cds : Annotation → list Cds.row * list Exon.row)
    df annotation offsets :
  not_offsets offsets = true →
  dftobed getexons_and_cds df annotation offsets ≠ Raise (Raised KeyError).
Proof.
  intros Hnot. unfold dftobed.
  destruct (mapM namesplit_row df) as [df_namesplit|x] eqn:Hns; cbn.
  2:{ apply mapM_Raise, Exists_exists in Hns as (r & _ & Hr).
      apply namesplit_row_Raise in Hr as [-> | ->]; done. }
  destruct (getexons_and_cds annotation) as [cds_df exon_df].
  destruct (bamtranscript df_namesplit exon_df) as [bam_tran|e] eqn:Htran;
    cbn.
  2:{ apply bamtranscript_Err_inv in Htran as [-> _]. done. }
  destruct (bamrelativetocds bam_tran cds_df) as [bam_to_cds|e] eqn:Hcds;
    cbn.
  2:{ apply bamrelativetocds_Err in Hcds as ->. done. }
  rewrite Hnot.
  pose proof (inferred_offsets_covered bam_to_cds) as Hcov.
  destruct (asitecalc_cases bam_to_cds
              (change_point_analysis (bam_offsets_of bam_to_cds)))
    as [(_ & _ & ->)|[[_ ->]|[Hex _]]]; [done..|].
  apply Exists_exists in Hex as (r & Hr & Hnone).
  unfold covered in Hcov. rewrite Forall_forall in Hcov.
  destruct (Hcov r Hr) as [o Ho]. congruence.
Qed.

(** Two alignments of chr1 inside the exon of scenario A. *)
Lemma dftobed_inferred_no_KeyError_witness :
  dftobed (λ _ : unit, ([scenario_A_cds], [scenario_A_exon]))
    [Sam.mk "r_x3" "chr1" 100 130; Sam.mk "q_x4" "chr1" 102 130] () None
  ≠ Raise (Raised KeyError).
Proof.
  apply (dftobed_inferred_no_KeyError
           (λ _ : unit, ([scenario_A_cds], [scenario_A_exon]))).
  reflexivity.
Defined.

(** X15.  When no offsets are passed, every row of the table [dftobed]
    returns lies 10 or 15 positions after the start of an alignment of
    the same chromosome, the sum being that of a 64-bit column: no other
    offset is ever applied. *)
Theorem dftobed_inferred_a_sites {Annotation}
    (getexons_and_cds : Annotation → list Cds.row * list Exon.row)
    df annotation offsets bed exon_df cds_df :
  not_offsets offsets = true →
  dftobed getexons_and_cds df annotation offsets
    = Done (bed, exon_df, cds_df) →
  Forall (λ b, Exists (λ r, Sam.rname r = Bed.chr b
                            ∧ (Bed.A_site b = wrap64 (Sam.pos r + 10)
                               ∨ Bed.A_site b = wrap64 (Sam.pos r + 15)))
                 df) bed.
Proof.
  intros Hnot. unfold dftobed.
  destruct (mapM namesplit_row df) as [df_namesplit|x] eqn:Hns; cbn; [|done].
  destruct (getexons_and_cds annotation) as [cds_df' exon_df'].
  destruct (bamtranscript df_namesplit exon_df') as [bam_tran|e] eqn:Htran;
    cbn; [|done].
  destruct (bamrelativetocds bam_tran cds_df') as [bam_to_cds|e] eqn:Hcds;
    cbn; [|done].
  pose proof (bamrelativetocds_Ok_inv _ _ _ Hcds) as Hrows.
  rewrite Hnot.
  set (inferred := change_point_analysis (bam_offsets_of bam_to_cds)).
  pose proof (inferred_offsets_covered bam_to_cds) as Hcov.
  fold inferred in Hcov.
  destruct (asitecalc_cases bam_to_cds inferred)
    as [(_ & _ & ->)|[[_ ->]|[_ ->]]]; cbn; [|done..].
  intros [= <- _ _]. apply Forall_forall.
  intros b (Hk & _ & _)%elem_of_bed_of.
  rewrite keyed_rows_Permutation, <-list_fmap_compose in Hk.
  apply list_elem_of_fmap in Hk as (y & Hkey & Hy).
  unfold covered in Hcov. rewrite Forall_forall in Hcov.
  rewrite Forall_forall in Hrows.
  destruct (Hcov y Hy) as [o Ho].
  destruct (Hrows y Hy) as (t & Ht & _ & Hchr & Hstart & _).
  destruct (bamtranscript_row_read _ _ _ _ Htran Ht)
    as (r & Hr & _ & Hchr' & Hstart' & _).
  apply mapM_Done_inv in Hns.
  apply list_elem_of_lookup in Hr as [i Hi].
  destruct (Forall2_lookup_r _ _ _ _ _ Hns Hi) as (s & Hs & Hsr).
  apply namesplit_row_Done in Hsr as (Hrname & Hpos & _).
  apply Exists_exists. exists s.
  split; [by eapply list_elem_of_lookup_2|].
  unfold bed_key, a_site_key in Hkey. simpl in Hkey.
  rewrite Ho in Hkey. injection Hkey as Hbchr Hbsite. simpl in Hbsite.
  split; [congruence|].
  assert (o = 10 ∨ o = 15) as [-> | ->]
    by (eapply change_point_analysis_in_10_or_15; exact Ho);
    [left|right]; congruence.
Qed.

(** Two alignments of lengths 30 and 28: the length 28 has a peak and is
    visited first, so both get 10. *)
Lemma dftobed_inferred_a_sites_witness :
  dftobed (λ _ : unit, ([scenario_A_cds], [scenario_A_exon]))
    [Sam.mk "r_x3" "chr1" 100 130; Sam.mk "q_x4" "chr1" 102 130] () None
  = Done ([Bed.mk "chr1" 110 111 3; Bed.mk "chr1" 112 113 4],
          [scenario_A_exon], [scenario_A_cds])
  ∧ Forall (λ b, Exists (λ r, Sam.rname r = Bed.chr b
                              ∧ (Bed.A_site b = wrap64 (Sam.pos r + 10)
                                 ∨ Bed.A_site b = wrap64 (Sam.pos r + 15)))
                   [Sam.mk "r_x3" "chr1" 100 130;
                    Sam.mk "q_x4" "chr1" 102 130])
           [Bed.mk "chr1" 110 111 3; Bed.mk "chr1" 112 113 4].
Proof.
  split; [vm_compute; reflexivity|].
  apply (dftobed_inferred_a_sites
           (λ _ : unit, ([scenario_A_cds], [scenario_A_exon]))
           [Sam.mk "r_x3" "chr1" 100 130; Sam.mk "q_x4" "chr1" 102 130] ()
           None _ [scenario_A_exon] [scenario_A_cds]);
    [reflexivity|vm_compute; reflexivity].
Defined.

(** X16.  On the table that [dftobed] groups by [bamcds_start] and
    [length], the count [change_point_analysis] reads at a position, the
    first row of its filter, is the sum of the counts of all the reads of
    that length at that position, as a 64-bit column adds them. *)
Theorem bam_offsets_count_at bam_to_cds length j :
  count_at (sort_by_bamcds_start
              (filter (λ r, Hist.length r = length)
                 (bam_offsets_of bam_to_cds))) j
  = wrap64 (sum_list (BamCds.count <$>
      filter (λ r, BamCds.bamcds_start r = j ∧ BamCds.length r = length)
        bam_to_cds)).
Proof.
  set (rows := (λ r, ((BamCds.bamcds_start r, BamCds.length r),
                      BamCds.count r)) <$> bam_to_cds).
  set (key := λ h, (Hist.bamcds_start h, Hist.length h)).
  assert (sum_list (BamCds.count <$>
            filter (λ r, BamCds.bamcds_start r = j
                         ∧ BamCds.length r = length) bam_to_cds)
          = count_of (j, length) rows) as ->.
  { unfold rows.
    rewrite (count_of_fmap
      (λ r, (BamCds.bamcds_start r, BamCds.length r)) BamCds.count).
    do 2 f_equal. apply list_filter_iff. intros r. split.
    - by intros [-> ->].
    - by intros [= -> ->]. }
  assert (key <$> bam_offsets_of bam_to_cds = (group_by_sum rows).*1)
    as Hkeys.
  { unfold bam_offsets_of. rewrite <-list_fmap_compose.
    apply list_fmap_ext. by intros i [[j' l'] n] _. }
  assert (NoDup (key <$> bam_offsets_of bam_to_cds)) as Hnd
    by (rewrite Hkeys; apply group_by_sum_NoDup).
  unfold count_at.
  set (picked := filter (λ r, Hist.bamcds_start r = j) _).
  assert (picked ≡ₚ filter (λ h, key h = (j, length))
                      (bam_offsets_of bam_to_cds)) as Hpicked.
  { unfold picked. rewrite sort_by_bamcds_start_filter, list_filter_filter.
    erewrite list_filter_iff; [done|]. intros h. unfold key. split.
    - by intros [-> ->].
    - by intros [= -> ->]. }
  destruct (decide ((j, length) ∈ (group_by_sum rows).*1)) as [Hin|Hin].
  - apply list_elem_of_fmap in Hin as ([k n] & Hk & Hg).
    simpl in Hk. subst k.
    pose proof Hg as [_ Hn]%elem_of_group_by_sum.
    assert (Hist.mk j length n ∈ bam_offsets_of bam_to_cds) as Hh.
    { unfold bam_offsets_of. apply list_elem_of_fmap.
      by exists (j, length, n). }
    assert (picked ≡ₚ [Hist.mk j length n]) as Hone.
    { rewrite Hpicked. apply NoDup_Permutation.
      - by apply NoDup_filter, (NoDup_fmap_1 key).
      - apply NoDup_singleton.
      - intros h. rewrite list_elem_of_filter, list_elem_of_singleton.
        split; [|by intros ->].
        intros [Hkey Hin].
        by apply (NoDup_fmap_elem_of_eq key
                    (bam_offsets_of bam_to_cds)). }
    apply Permutation_singleton_r in Hone. rewrite Hone. done.
  - assert (filter (λ h, key h = (j, length))
              (bam_offsets_of bam_to_cds) = []) as Hnil.
    { destruct (filter (λ h, key h = (j, length))
                  (bam_offsets_of bam_to_cds)) as [|h hs] eqn:Hf; [done|].
      assert (h ∈ filter (λ h, key h = (j, length))
                    (bam_offsets_of bam_to_cds)) as Hh
        by (rewrite Hf; by left).
      apply list_elem_of_filter in Hh as [Hkey Hh].
      destruct Hin. rewrite <-Hkeys, <-Hkey. by apply list_elem_of_fmap_2. }
    rewrite Hnil in Hpicked. apply Permutation_nil_r in Hpicked.
    rewrite Hpicked.
    rewrite count_of_not_elem_of; [done|].
    intros Hk. apply Hin. by apply group_by_sum_keys.
Qed.
